(** * Event Processor Service: a shallow embedding of
      [services/event-processor/main.py]

    The service consumes batches from a partitioned event stream, runs every
    event through a per-event pipeline (fault injection, dispatch on the event
    type, upsert into the document store, push onto a bounded cache list) and
    advances the partition checkpoint after each batch.

    The Python coroutines are embedded as functions in a state-and-exception
    monad over a [World]: the [EventProcessor] object, the module-global
    [config], the contents of the document store, of the cache and of the
    checkpoint store, the tasks handed to the event loop, and the ordered
    trace of observable effects (log records, span operations, metrics,
    sleeps, checkpoint calls).
    Whatever the surroundings decide (clock readings, random draws, failures
    of client calls, what the stream delivers) is read from an [Env] oracle,
    so every definition is executable and every theorem holds for all
    surroundings.  A finite Python float is held as the rational it is.  The
    one float product whose value reaches a store, [time.time() * 1000] in
    the fallback document id, is rounded to binary64 as Python rounds it; the
    durations, which only appear in log fields and metrics, are computed
    exactly. *)

From Stdlib Require Import ZArith QArith String List Lia Lqa.
From stdpp Require Import base gmap strings list fin_maps pretty.

Set Warnings "-register-all".
Close Scope Q_scope.
Open Scope string_scope.
Open Scope list_scope.

(** ** Python values and exceptions *)

(** What [json.loads] can return.  Python's [None] is [JNull]. *)
Inductive json : Type :=
| JNull
| JBool (b : bool)
| JInt (z : Z)
| JFloat (q : Q)
| JStr (s : string)
| JArr (xs : list json)
| JObj (kvs : list (string * json)).

(** Every exception the service handles is a subclass of [Exception]; the
    model keeps the class name and [str(e)].  [HTTPException] carries the
    status code FastAPI answers with. *)
Inductive Exn : Type :=
| PyExc (cls : string) (msg : string)
| HTTPException (status_code : Z) (detail : string).

Definition exn_class (e : Exn) : string :=
  match e with
  | PyExc cls _ => cls
  | HTTPException _ _ => "HTTPException"
  end.

(** [str(e)] *)
Definition exn_str (e : Exn) : string :=
  match e with
  | PyExc _ msg => msg
  | HTTPException c d => pretty c +:+ ": " +:+ d
  end.

(** [needle in hay] on Python strings. *)
Fixpoint str_in (needle hay : string) : bool :=
  String.prefix needle hay ||
  match hay with
  | EmptyString => false
  | String _ rest => str_in needle rest
  end.

(** [d.get(k)] on the key/value pairs of a dict, first match. *)
Fixpoint assoc_get {V : Type} (k : string) (kvs : list (string * V)) : option V :=
  match kvs with
  | [] => None
  | (k', v) :: rest => if String.eqb k k' then Some v else assoc_get k rest
  end.

Definition py_type_name (v : json) : string :=
  match v with
  | JNull => "NoneType"
  | JBool _ => "bool"
  | JInt _ => "int"
  | JFloat _ => "float"
  | JStr _ => "str"
  | JArr _ => "list"
  | JObj _ => "dict"
  end.

Definition attribute_error (v : json) (attr : string) : Exn :=
  PyExc "AttributeError"
        ("'" +:+ py_type_name v +:+ "' object has no attribute '" +:+ attr +:+ "'").

(** Values attached to log records and span attributes. *)
Inductive Val : Type :=
| VStr (s : string)
| VNum (q : Q)
| VInt (z : Z)
| VBool (b : bool)
| VPy (v : json)
| VKeys (ks : list string).

Inductive Level : Type := LInfo | LWarning | LError.
Inductive StatusCode : Type := StOK | StERROR.

(** ** Configuration and data records *)

Record Config : Type := mkConfig {
  EVENT_HUB_CONNECTION_STRING : string;
  EVENT_HUB_NAME : string;
  CONSUMER_GROUP : string;
  COSMOS_ENDPOINT : string;
  COSMOS_KEY : string;
  COSMOS_DATABASE : string;
  COSMOS_CONTAINER : string;
  REDIS_URL : string;
  FAILURE_INJECTION_ENABLED : bool;
  LATENCY_INJECTION_PROBABILITY : Q;
  ERROR_INJECTION_PROBABILITY : Q
}.

Record FailureInjectionConfig : Type := mkFailureInjectionConfig {
  enabled : bool;
  latency_probability : Q;
  error_probability : Q
}.

(** The document written by [store_processed_event]. *)
Record Document : Type := mkDocument {
  doc_id : string;
  doc_eventType : string;
  doc_eventData : json;
  doc_processedAt : string;
  doc_processingService : string
}.

Record EventData : Type := mkEventData {
  body_as_str : string;
  properties : list (string * string)
}.

Record PartitionContext : Type := mkPartitionContext {
  partition_id : string
}.

(** What the stream client hands to the callbacks of [receive_batch]. *)
Inductive Delivery : Type :=
| Batch (pc : PartitionContext) (event_batch : list EventData)
| PartitionError (pc : PartitionContext) (error : Exn).

Inductive Coroutine : Type := ProcessEvents.

(** Observable effects, in program order. *)
Inductive Effect : Type :=
| Log (lvl : Level) (msg : string) (fields : list (string * Val))
| SpanStart (name : string)
| SpanEnd (name : string)
| SetAttribute (span : string) (key : string) (v : Val)
| RecordException (span : string) (e : Exn)
| SetStatus (span : string) (c : StatusCode) (description : option string)
| SetBaggage (key : string) (v : string)
| CounterAdd (counter : string) (n : Z) (labels : list (string * string))
| HistogramRecord (histogram : string) (v : Q)
| Sleep (seconds : Q)
| UpdateCheckpoint (pid : string)
| ClientClosed (client : string).

(** The [EventProcessor] instance.  A client field holds what the client was
    built from, [None] while it is not initialised. *)
Record Processor : Type := mkProcessor {
  redis_client : option string;
  cosmos_client : option string;
  cosmos_container : option (string * string);
  consumer_client : option string;
  producer_client : option string;
  running : bool
}.

Record World : Type := mkWorld {
  processor : Processor;
  config : Config;
  cosmos_items : gmap string Document;
  redis_lists : gmap string (list string);
  redis_ttl : gmap string Z;
  tasks : list Coroutine;
  trace : list Effect;
  steps : nat;
  (** the checkpoint store: for each partition, over how many batches its
      checkpoint has been advanced; a checkpoint write that the store accepts
      advances it over the batch the partition context was handed *)
  checkpoint_store : gmap string nat
}.

(** The surroundings.  Oracles indexed by a step are consulted at the value
    of the world's [steps] counter, which every consultation advances, so each
    call can get its own answer. *)
Record Env : Type := mkEnv {
  (** [time.time()]: a finite float, held as the rational it is *)
  time_time : nat -> Q;
  (** [datetime.utcnow().isoformat()] *)
  utcnow_isoformat : nat -> string;
  (** [random.random()], in [0, 1) *)
  random_random : nat -> Q;
  (** the index [random.choice] picks in a sequence of the given length *)
  random_below : nat -> nat -> nat;
  (** outcome of the network call issued at a step: [None] is success *)
  net_fault : nat -> option Exn;
  (** client constructors: they parse their configuration, nothing more *)
  Redis_from_url_fault : string -> option Exn;
  CosmosClient_fault : string -> string -> option Exn;
  EventHub_from_connection_string_fault : string -> option Exn;
  (** [json.loads], [json.dumps] and [repr] of a decoded value *)
  json_loads : string -> Exn + json;
  json_dumps : json -> string;
  py_repr : json -> string;
  (** what [receive_batch] delivers before it ends, and how it ends *)
  deliveries : list Delivery;
  receive_end : option Exn
}.

(** [str(v)]: a [str] is itself, anything else prints as its [repr]. *)
Definition py_str (env : Env) (v : json) : string :=
  match v with
  | JStr s => s
  | JNull => "None"
  | JBool true => "True"
  | JBool false => "False"
  | JInt z => pretty z
  | _ => py_repr env v
  end.

(** ** The state-and-exception monad *)

Inductive Res (A : Type) : Type :=
| Ret (a : A)
| Raise (e : Exn).
Arguments Ret {A} a.
Arguments Raise {A} e.

Definition M (A : Type) : Type := World -> Res A * World.

Definition ret {A : Type} (a : A) : M A := fun w => (Ret a, w).

Definition raise {A : Type} (e : Exn) : M A := fun w => (Raise e, w).

Definition bind {A B : Type} (c : M A) (k : A -> M B) : M B :=
  fun w =>
    match c w with
    | (Ret a, w') => k a w'
    | (Raise e, w') => (Raise e, w')
    end.

(** [try: c except Exception as e: h e] *)
Definition try_except {A : Type} (c : M A) (h : Exn -> M A) : M A :=
  fun w =>
    match c w with
    | (Ret a, w') => (Ret a, w')
    | (Raise e, w') => h e w'
    end.

Declare Scope py_scope.
Delimit Scope py_scope with py.
Notation "'do' x <- c ; k" := (bind c (fun x => k))
  (at level 10, x name, c at level 100, k at level 200) : py_scope.
Notation "'run' c ; k" := (bind c (fun _ => k))
  (at level 10, c at level 100, k at level 200) : py_scope.
Open Scope py_scope.

Definition gets {A : Type} (f : World -> A) : M A := fun w => (Ret (f w), w).

Definition modify (f : World -> World) : M unit := fun w => (Ret tt, f w).

Definition when (b : bool) (c : M unit) : M unit := if b then c else ret tt.

(** [for x in xs: body x] *)
Fixpoint for_each {A : Type} (xs : list A) (body : A -> M unit) : M unit :=
  match xs with
  | [] => ret tt
  | x :: rest => run body x; for_each rest body
  end.

(** ** World updates *)

Definition set_processor (p : Processor) (w : World) : World :=
  mkWorld p (config w) (cosmos_items w) (redis_lists w) (redis_ttl w)
          (tasks w) (trace w) (steps w) (checkpoint_store w).

Definition set_config (c : Config) (w : World) : World :=
  mkWorld (processor w) c (cosmos_items w) (redis_lists w) (redis_ttl w)
          (tasks w) (trace w) (steps w) (checkpoint_store w).

Definition set_cosmos_items (m : gmap string Document) (w : World) : World :=
  mkWorld (processor w) (config w) m (redis_lists w) (redis_ttl w)
          (tasks w) (trace w) (steps w) (checkpoint_store w).

Definition set_redis_lists (m : gmap string (list string)) (w : World) : World :=
  mkWorld (processor w) (config w) (cosmos_items w) m (redis_ttl w)
          (tasks w) (trace w) (steps w) (checkpoint_store w).

Definition set_redis_ttl (m : gmap string Z) (w : World) : World :=
  mkWorld (processor w) (config w) (cosmos_items w) (redis_lists w) m
          (tasks w) (trace w) (steps w) (checkpoint_store w).

Definition set_tasks (ts : list Coroutine) (w : World) : World :=
  mkWorld (processor w) (config w) (cosmos_items w) (redis_lists w) (redis_ttl w)
          ts (trace w) (steps w) (checkpoint_store w).

Definition set_trace (tr : list Effect) (w : World) : World :=
  mkWorld (processor w) (config w) (cosmos_items w) (redis_lists w) (redis_ttl w)
          (tasks w) tr (steps w) (checkpoint_store w).

Definition set_steps (n : nat) (w : World) : World :=
  mkWorld (processor w) (config w) (cosmos_items w) (redis_lists w) (redis_ttl w)
          (tasks w) (trace w) n (checkpoint_store w).

Definition set_checkpoint_store (m : gmap string nat) (w : World) : World :=
  mkWorld (processor w) (config w) (cosmos_items w) (redis_lists w) (redis_ttl w)
          (tasks w) (trace w) (steps w) m.

Definition set_running (b : bool) (p : Processor) : Processor :=
  mkProcessor (redis_client p) (cosmos_client p) (cosmos_container p)
              (consumer_client p) (producer_client p) b.

Definition set_redis_client (c : option string) (p : Processor) : Processor :=
  mkProcessor c (cosmos_client p) (cosmos_container p)
              (consumer_client p) (producer_client p) (running p).

Definition set_cosmos (c : option string) (k : option (string * string))
    (p : Processor) : Processor :=
  mkProcessor (redis_client p) c k
              (consumer_client p) (producer_client p) (running p).

Definition set_eventhub (c : option string) (pr : option string)
    (p : Processor) : Processor :=
  mkProcessor (redis_client p) (cosmos_client p) (cosmos_container p)
              c pr (running p).

(** ** Primitive actions *)

Definition emit (e : Effect) : M unit :=
  modify (fun w => set_trace (trace w ++ [e]) w).

(** Advance the step counter and hand out the step just used. *)
Definition tick : M nat :=
  fun w => (Ret (steps w), set_steps (S (steps w)) w).

Definition logger (lvl : Level) (msg : string) (fields : list (string * Val)) : M unit :=
  emit (Log lvl msg fields).

Section Program.

Variable env : Env.

(** A network round trip: it fails when the surroundings say so. *)
Definition net_call : M unit :=
  do n <- tick;
  match net_fault env n with
  | None => ret tt
  | Some e => raise e
  end.

Definition now : M Q :=
  do n <- tick; ret (time_time env n).

Definition utcnow : M string :=
  do n <- tick; ret (utcnow_isoformat env n).

Definition random : M Q :=
  do n <- tick; ret (random_random env n).

(** [random.uniform(a, b)] is [a + (b - a) * random()]. *)
Definition uniform (a b : Q) : M Q :=
  do r <- random; ret (a + (b - a) * r)%Q.

(** [random.choice(seq)] on a non-empty sequence. *)
Definition choice (seq : list string) : M string :=
  do n <- tick;
  ret (nth (random_below env n (length seq) mod length seq) seq "").

Definition asyncio_sleep (seconds : Q) : M unit := emit (Sleep seconds).

(** [with tracer.start_as_current_span(name)]: an exception leaving the block
    is recorded on the span, the span status is set to ERROR, the span ends
    and the exception goes on. *)
Definition with_span {A : Type} (name : string) (body : M A) : M A :=
  run emit (SpanStart name);
  try_except
    (do a <- body; run emit (SpanEnd name); ret a)
    (fun e =>
       run emit (RecordException name e);
       run emit (SetStatus name StERROR
                   (Some (exn_class e +:+ ": " +:+ exn_str e)));
       run emit (SpanEnd name);
       raise e).

(** [v.get(key)] and [v.get(key, default)]: only a dict has [get]. *)
Definition py_get (v : json) (key : string) (dflt : json) : M json :=
  match v with
  | JObj kvs => ret (default dflt (assoc_get key kvs))
  | _ => raise (attribute_error v "get")
  end.

(** [list(v.keys())] *)
Definition py_keys (v : json) : M (list string) :=
  match v with
  | JObj kvs => ret (map fst kvs)
  | _ => raise (attribute_error v "keys")
  end.

(** Python truth value of a string: non-empty. *)
Definition truthy (s : string) : bool :=
  match s with EmptyString => false | _ => true end.

Definition is_some {A : Type} (o : option A) : bool :=
  match o with Some _ => true | None => false end.

Definition Qlt_bool (x y : Q) : bool := negb (Qle_bool y x).

(** [int(x)] truncates towards zero. *)
Definition py_int (x : Q) : Z := Z.quot (Qnum x) (Z.pos (Qden x)).

(** ** Float arithmetic

    A Python [float] is a binary64 number; a finite one is a rational, and
    that rational is what the model holds.  A product of floats is the exact
    product rounded to the nearest binary64 number, ties to even. *)

(** [floor (log2 x)] of a positive rational. *)
Definition Qlog2 (x : Q) : Z :=
  let n := Qnum x in
  let d := Z.pos (Qden x) in
  let e0 := (Z.log2 n - Z.log2 d)%Z in
  if (if (0 <=? e0)%Z then (d * 2 ^ e0 <=? n)%Z else (d <=? n * 2 ^ (- e0))%Z)
  then e0 else (e0 - 1)%Z.

(** [n / d] rounded to the nearest integer, ties to even, for [0 <= n] and
    [0 < d]. *)
Definition round_half_even (n d : Z) : Z :=
  let m := (n / d)%Z in
  match (2 * (n mod d) ?= d)%Z with
  | Lt => m
  | Gt => (m + 1)%Z
  | Eq => if Z.even m then m else (m + 1)%Z
  end.

(** The binary64 number nearest to [x]: 53 significant bits, and the fixed
    quantum [2 ^ -1074] below [2 ^ -1022].  The upper end of the exponent range
    is not modelled: a product beyond it is [inf] in Python, which takes a
    clock reading above [1e305] seconds. *)
Definition round_binary64 (x : Q) : Q :=
  let n := Qnum x in
  let d := Z.pos (Qden x) in
  if (n =? 0)%Z then 0%Q
  else
    let a := Z.abs n in
    let q := (Z.max (Qlog2 (a # Qden x)) (-1022) - 52)%Z in
    let r :=
      if (0 <=? q)%Z then inject_Z (round_half_even a (d * 2 ^ q) * 2 ^ q)
      else (round_half_even (a * 2 ^ (- q)) d # Z.to_pos (2 ^ (- q)))%Q in
    if (0 <? n)%Z then r else (- r)%Q.

(** [x * y] on floats. *)
Definition float_mul (x y : Q) : Q := round_binary64 (x * y).

(** ** Document store and cache commands *)

(** [container.upsert_item(document)]: insert or overwrite by [id]. *)
Definition upsert_item (document : Document) : M unit :=
  run net_call;
  modify (fun w => set_cosmos_items (<[doc_id document := document]> (cosmos_items w)) w).

(** [LPUSH key value]: push on the head, creating the list if needed. *)
Definition lpush (key value : string) : M unit :=
  run net_call;
  modify (fun w =>
    set_redis_lists (<[key := value :: default [] (redis_lists w !! key)]> (redis_lists w)) w).

(** [LTRIM key start stop] with non-negative, inclusive indices; a list
    trimmed to nothing is removed together with its expiry. *)
Definition ltrim (key : string) (start stop : nat) : M unit :=
  run net_call;
  modify (fun w =>
    match redis_lists w !! key with
    | None => w
    | Some l =>
        match take (S stop - start) (drop start l) with
        | [] => set_redis_ttl (delete key (redis_ttl w))
                  (set_redis_lists (delete key (redis_lists w)) w)
        | l' => set_redis_lists (<[key := l']> (redis_lists w)) w
        end
    end).

(** [EXPIRE key seconds]: only an existing key gets a time to live. *)
Definition expire (key : string) (seconds : Z) : M unit :=
  run net_call;
  modify (fun w =>
    match redis_lists w !! key with
    | None => w
    | Some _ => set_redis_ttl (<[key := seconds]> (redis_ttl w)) w
    end).

(** ** [EventProcessor] *)

Definition initialize : M unit :=
  let span := "event_processor_initialize" in
  with_span span
    (try_except
       ((* Initialize Redis *)
        do cfg <- gets config;
        run match Redis_from_url_fault env (REDIS_URL cfg) with
            | None => modify (fun w =>
                set_processor (set_redis_client (Some (REDIS_URL cfg)) (processor w)) w)
            | Some e => raise e
            end;
        (* await self.redis_client.ping() *)
        run net_call;
        run emit (SetAttribute span "redis.initialized" (VBool true));
        (* Initialize Cosmos DB *)
        run when (truthy (COSMOS_ENDPOINT cfg) && truthy (COSMOS_KEY cfg))
            (run match CosmosClient_fault env (COSMOS_ENDPOINT cfg) (COSMOS_KEY cfg) with
                 | None => modify (fun w =>
                     set_processor
                       (set_cosmos (Some (COSMOS_ENDPOINT cfg))
                                   (Some (COSMOS_DATABASE cfg, COSMOS_CONTAINER cfg))
                                   (processor w)) w)
                 | Some e => raise e
                 end;
             emit (SetAttribute span "cosmos.initialized" (VBool true)));
        (* Initialize Event Hub clients *)
        run when (truthy (EVENT_HUB_CONNECTION_STRING cfg))
            (run match EventHub_from_connection_string_fault env
                         (EVENT_HUB_CONNECTION_STRING cfg) with
                 | None => modify (fun w =>
                     set_processor
                       (set_eventhub (Some (EVENT_HUB_CONNECTION_STRING cfg))
                                     (Some (EVENT_HUB_CONNECTION_STRING cfg))
                                     (processor w)) w)
                 | Some e => raise e
                 end;
             emit (SetAttribute span "eventhub.initialized" (VBool true)));
        logger LInfo "Event processor initialized successfully" [])
       (fun e =>
          run emit (RecordException span e);
          run emit (SetStatus span StERROR (Some (exn_str e)));
          run logger LError "Failed to initialize event processor"
                [("error", VStr (exn_str e))];
          raise e)).

Definition maybe_inject_failure (operation : string) : M unit :=
  do cfg <- gets config;
  if negb (FAILURE_INJECTION_ENABLED cfg) then ret tt else
  (* Inject latency *)
  do r <- random;
  do cfg <- gets config;
  run when (Qlt_bool r (LATENCY_INJECTION_PROBABILITY cfg))
      (do delay <- uniform (1 # 10) 2;
       run logger LWarning "Injecting latency"
             [("operation", VStr operation); ("delay_seconds", VNum delay)];
       asyncio_sleep delay);
  (* Inject errors *)
  do r <- random;
  do cfg <- gets config;
  when (Qlt_bool r (ERROR_INJECTION_PROBABILITY cfg))
    (do error_type <- choice ["network"; "database"; "processing"; "timeout"];
     run logger LError "Injecting error"
           [("operation", VStr operation); ("error_type", VStr error_type)];
     raise (PyExc "Exception"
              ("Simulated " +:+ error_type +:+ " error in " +:+ operation))).

Definition send_notification (customer_id : json) (message : string) : M unit :=
  let child_span := "send_notification" in
  with_span child_span
    (run emit (SetAttribute child_span "notification.customer_id" (VPy customer_id));
     run emit (SetAttribute child_span "notification.message" (VStr message));
     (* Simulate notification delay *)
     do d <- uniform (1 # 100) (5 # 100);
     run asyncio_sleep d;
     logger LInfo "Notification sent"
       [("customer_id", VPy customer_id); ("message", VStr message)]).

Definition handle_order_created (event_data : json) : M unit :=
  let child_span := "handle_order_created" in
  with_span child_span
    (do order_id <- py_get event_data "OrderId" JNull;
     do customer_id <- py_get event_data "CustomerId" JNull;
     run emit (SetAttribute child_span "order.id" (VStr (py_str env order_id)));
     run emit (SetAttribute child_span "order.customer_id" (VPy customer_id));
     (* Simulate order processing logic *)
     do d <- uniform (1 # 10) (5 # 10);
     run asyncio_sleep d;
     (* Simulate sending notification *)
     run send_notification customer_id
           ("Order " +:+ py_str env order_id +:+ " created");
     logger LInfo "Order created event processed"
       [("order_id", VPy order_id); ("customer_id", VPy customer_id)]).

Definition handle_order_status_updated (event_data : json) : M unit :=
  let child_span := "handle_order_status_updated" in
  with_span child_span
    (do order_id <- py_get event_data "OrderId" JNull;
     do status <- py_get event_data "Status" JNull;
     run emit (SetAttribute child_span "order.id" (VStr (py_str env order_id)));
     run emit (SetAttribute child_span "order.status" (VPy status));
     (* Simulate status update processing *)
     do d <- uniform (5 # 100) (2 # 10);
     run asyncio_sleep d;
     logger LInfo "Order status updated event processed"
       [("order_id", VPy order_id); ("status", VPy status)]).

Definition handle_generic_event (event_data : json) : M unit :=
  with_span "handle_generic_event"
    ((* Simulate generic processing *)
     do d <- uniform (2 # 100) (1 # 10);
     run asyncio_sleep d;
     do keys <- py_keys event_data;
     logger LInfo "Generic event processed" [("event_keys", VKeys keys)]).

(** The [except] block of [store_processed_event].  [order_id] is bound by
    the first statement of the [try] block; it is [None] here when that
    statement itself raised. *)
Definition store_processed_event_except (event_type : string)
    (order_id : option json) (e : Exn) : M unit :=
  let child_span := "store_processed_event" in
  (* Conflict errors on upsert indicate concurrent partition processing *)
  let error_str := exn_str e in
  if str_in "Conflict" error_str && str_in "409" error_str then
    match order_id with
    | Some order_id =>
        run logger LWarning "Duplicate event already processed (concurrent partition)"
              [("document_id", VStr (event_type +:+ "_" +:+ py_str env order_id));
               ("event_type", VStr event_type);
               ("order_id", VPy order_id)];
        emit (SetAttribute child_span "cosmos.duplicate_event" (VBool true))
    | None =>
        raise (PyExc "UnboundLocalError"
                 "cannot access local variable 'order_id' where it is not associated with a value")
    end
  else
    run emit (RecordException child_span e);
    logger LError "Failed to store event in Cosmos DB"
      [("error", VStr error_str); ("event_type", VStr event_type)].

Definition store_processed_event (event_data : json) (event_type : string) : M unit :=
  let child_span := "store_processed_event" in
  with_span child_span
    (do bound <-
       try_except
         ((* Use OrderId from event data as unique identifier; the default
             is built before [get] is called, whether or not it is used *)
          match event_data with
          | JObj _ =>
              do t <- now;
              do order_id <-
                py_get event_data "OrderId"
                  (JStr ("unknown_" +:+ pretty (py_int (float_mul t 1000))));
              ret (inr order_id)
          | _ => raise (attribute_error event_data "get")
          end)
         (fun e => ret (inl e));
     match bound with
     | inl e => store_processed_event_except event_type None e
     | inr order_id =>
         try_except
           (do processedAt <- utcnow;
            let document :=
              mkDocument (event_type +:+ "_" +:+ py_str env order_id)
                         event_type event_data processedAt "event-processor" in
            (* Use upsert to handle duplicate events gracefully *)
            run upsert_item document;
            run emit (SetAttribute child_span "cosmos.document_id"
                        (VStr (doc_id document)));
            logger LInfo "Event stored in Cosmos DB"
              [("document_id", VStr (doc_id document));
               ("event_type", VStr event_type);
               ("order_id", VPy order_id)])
           (store_processed_event_except event_type (Some order_id))
     end).

Definition cache_event_summary (event_data : json) (event_type : string) : M unit :=
  try_except
    (let cache_key := "recent_events:" +:+ event_type in
     do timestamp <- utcnow;
     let event_summary :=
       JObj [("timestamp", JStr timestamp);
             ("type", JStr event_type);
             ("data", event_data)] in
     run lpush cache_key (json_dumps env event_summary);
     run ltrim cache_key 0 99;   (* Keep last 100 events *)
     expire cache_key 3600)      (* Expire in 1 hour *)
    (fun e =>
       logger LError "Failed to cache event summary" [("error", VStr (exn_str e))]).

Definition process_single_event (event : EventData) (partition_context : PartitionContext)
    : M unit :=
  let span := "process_single_event" in
  do start_time <- now;
  with_span span
    (try_except
       ((* Extract event data *)
        do event_body <-
          match json_loads env (body_as_str event) with
          | inr v => ret v
          | inl e => raise e
          end;
        let event_type := default "Unknown" (assoc_get "EventType" (properties event)) in
        let source := default "Unknown" (assoc_get "Source" (properties event)) in
        (* Set span attributes *)
        run emit (SetAttribute span "event.type" (VStr event_type));
        run emit (SetAttribute span "event.source" (VStr source));
        run emit (SetAttribute span "partition.id"
                    (VStr (partition_id partition_context)));
        (* Add baggage for distributed context *)
        run emit (SetBaggage "event.type" event_type);
        run emit (SetBaggage "event.source" source);
        run logger LInfo "Processing event"
              [("event_type", VStr event_type); ("source", VStr source);
               ("partition", VStr (partition_id partition_context))];
        (* Inject failures for demo purposes *)
        run maybe_inject_failure "process_event";
        (* Process based on event type *)
        run (if String.eqb event_type "OrderCreated" then
               handle_order_created event_body
             else if String.eqb event_type "OrderStatusUpdated" then
               handle_order_status_updated event_body
             else
               handle_generic_event event_body);
        (* Store in Cosmos DB *)
        do p <- gets processor;
        run when (is_some (cosmos_container p))
              (store_processed_event event_body event_type);
        (* Cache recent events in Redis *)
        do p <- gets processor;
        run when (is_some (redis_client p))
              (cache_event_summary event_body event_type);
        (* Record metrics *)
        do t <- now;
        let processing_time := (t - start_time)%Q in
        run emit (HistogramRecord "event_processing_duration_seconds" processing_time);
        run emit (CounterAdd "events_processed_total" 1
                    [("event_type", event_type); ("source", source)]);
        run emit (SetAttribute span "processing.duration_ms"
                    (VNum (processing_time * 1000)%Q));
        run emit (SetStatus span StOK None);
        logger LInfo "Event processed successfully"
          [("event_type", VStr event_type);
           ("processing_time_ms", VNum (processing_time * 1000)%Q)])
       (fun e =>
          do t <- now;
          let processing_time := (t - start_time)%Q in
          run emit (RecordException span e);
          run emit (SetStatus span StERROR (Some (exn_str e)));
          run emit (CounterAdd "event_processing_errors_total" 1
                      [("error_type", "processing_error")]);
          logger LError "Event processing failed"
            [("error", VStr (exn_str e));
             ("processing_time_ms", VNum (processing_time * 1000)%Q)])).

(** [partition_context.update_checkpoint()]: the call is recorded, then the
    checkpoint store is asked to advance the checkpoint of the partition; it
    advances when the store accepts the write, and stays where it is when the
    call fails. *)
Definition update_checkpoint (partition_context : PartitionContext) : M unit :=
  let pid := partition_id partition_context in
  run emit (UpdateCheckpoint pid);
  run net_call;
  modify (fun w =>
    set_checkpoint_store
      (<[pid := S (default 0 (checkpoint_store w !! pid))]> (checkpoint_store w)) w).

Definition on_event_batch (partition_context : PartitionContext)
    (event_batch : list EventData) : M unit :=
  let span := "process_event_batch" in
  with_span span
    (run emit (SetAttribute span "partition.id" (VStr (partition_id partition_context)));
     run emit (SetAttribute span "batch.size" (VInt (Z.of_nat (length event_batch))));
     run for_each event_batch
           (fun event => process_single_event event partition_context);
     update_checkpoint partition_context).

Definition on_error (partition_context : PartitionContext) (error : Exn) : M unit :=
  run logger LError "Event processing error"
        [("partition_id", VStr (partition_id partition_context));
         ("error", VStr (exn_str error))];
  emit (CounterAdd "event_processing_errors_total" 1 [("error_type", "partition_error")]).

(** [consumer_client.receive_batch(on_event_batch, on_error, ...)]: the
    client calls [on_event_batch] for each batch it receives and [on_error]
    for each partition error; an exception escaping [on_event_batch] is handed
    to [on_error] as well.  The call ends when the surroundings end it,
    normally or with an exception. *)
Definition receive_batch : M unit :=
  run for_each (deliveries env)
        (fun d =>
           match d with
           | Batch pc event_batch =>
               try_except (on_event_batch pc event_batch) (on_error pc)
           | PartitionError pc error => on_error pc error
           end);
  match receive_end env with
  | None => ret tt
  | Some e => raise e
  end.

(** [async with client: body]: the client is closed on the way out. *)
Definition async_with {A : Type} (client : string) (body : M A) : M A :=
  try_except
    (do a <- body; run emit (ClientClosed client); ret a)
    (fun e => run emit (ClientClosed client); raise e).

Definition process_events : M unit :=
  do p <- gets processor;
  if negb (is_some (consumer_client p)) then
    logger LError "Event Hub consumer client not initialized" []
  else
    run modify (fun w => set_processor (set_running true (processor w)) w);
    run logger LInfo "Starting event processing" [];
    try_except
      (async_with "consumer_client" receive_batch)
      (fun e =>
         run logger LError "Event processing loop failed" [("error", VStr (exn_str e))];
         emit (CounterAdd "event_processing_errors_total" 1
                 [("error_type", "consumer_error")])).

(** ** FastAPI endpoints *)

(** [asyncio.create_task(coro)] *)
Definition create_task (c : Coroutine) : M unit :=
  modify (fun w => set_tasks (tasks w ++ [c]) w).

(** What the event loop does with a task once it gets to run. *)
Definition run_coroutine (c : Coroutine) : M unit :=
  match c with
  | ProcessEvents => process_events
  end.

Definition startup_event : M unit :=
  run initialize;
  (* Auto-start event processing *)
  do p <- gets processor;
  when (negb (running p))
    (run create_task ProcessEvents;
     logger LInfo "Event processing auto-started on startup" []).

Record HealthResponse : Type := mkHealthResponse {
  health_status : string;
  health_service : string;
  health_timestamp : string;
  health_running : bool
}.

Definition health_check : M HealthResponse :=
  do ts <- utcnow;
  do p <- gets processor;
  ret (mkHealthResponse "healthy" "event-processor" ts (running p)).

Definition start_processing : M string :=
  do p <- gets processor;
  if running p then
    raise (HTTPException 400 "Event processing already running")
  else
    run create_task ProcessEvents;
    ret "Event processing started".

Definition get_failure_injection_config : M FailureInjectionConfig :=
  do cfg <- gets config;
  do _ts <- utcnow;
  ret (mkFailureInjectionConfig (FAILURE_INJECTION_ENABLED cfg)
         (LATENCY_INJECTION_PROBABILITY cfg) (ERROR_INJECTION_PROBABILITY cfg)).

Definition set_failure_injection (u : FailureInjectionConfig) (c : Config) : Config :=
  mkConfig (EVENT_HUB_CONNECTION_STRING c) (EVENT_HUB_NAME c) (CONSUMER_GROUP c)
           (COSMOS_ENDPOINT c) (COSMOS_KEY c) (COSMOS_DATABASE c) (COSMOS_CONTAINER c)
           (REDIS_URL c)
           (enabled u) (latency_probability u) (error_probability u).

Definition configure_failure_injection (config_update : FailureInjectionConfig)
    : M FailureInjectionConfig :=
  run modify (fun w => set_config (set_failure_injection config_update (config w)) w);
  do _ts <- utcnow;
  ret config_update.

End Program.

(** * Reading a run *)

(** The two terminal outcomes of an event, as they show in the trace: the
    event is counted as processed, or its failure is counted. *)
Definition is_processed (e : Effect) : bool :=
  match e with
  | CounterAdd c _ _ => String.eqb c "events_processed_total"
  | _ => false
  end.

Definition is_failed (e : Effect) : bool :=
  match e with
  | CounterAdd c _ labels =>
      String.eqb c "event_processing_errors_total"
      && bool_decide (labels = [("error_type", "processing_error")])
  | _ => false
  end.

Definition is_checkpoint (e : Effect) : bool :=
  match e with
  | UpdateCheckpoint _ => true
  | _ => false
  end.

Definition count (f : Effect -> bool) (d : list Effect) : nat :=
  length (List.filter f d).

(** [ext p f k w w']: [w'] comes after [w]; the processor object, the
    configuration and the task list are the same, and the trace has grown by
    [p] processed events, [f] failed events and [k] checkpoint calls. *)
Record ext (p f k : nat) (w w' : World) : Prop := mk_ext {
  ext_processor : processor w' = processor w;
  ext_config : config w' = config w;
  ext_tasks : tasks w' = tasks w;
  ext_trace : exists d, trace w' = trace w ++ d /\
                count is_processed d = p /\
                count is_failed d = f /\
                count is_checkpoint d = k
}.

(** A computation that settles no event and calls no checkpoint, whether it
    returns or raises. *)
Definition quiet {A : Type} (c : M A) : Prop :=
  forall w, ext 0 0 0 w (snd (c w)).

(** A computation that never raises. *)
Definition returns {A : Type} (c : M A) : Prop :=
  forall w, exists a, fst (c w) = Ret a.

(** A computation that counts one processed event if it returns, and
    nothing if it raises. *)
Definition counted {A : Type} (c : M A) : Prop :=
  forall w,
    match fst (c w) with
    | Ret _ => ext 1 0 0 w (snd (c w))
    | Raise _ => ext 0 0 0 w (snd (c w))
    end.

(** A computation that returns having brought one event to its terminal
    outcome: processed, or failed with the failure counted. *)
Definition settled (c : M unit) : Prop :=
  forall w,
    fst (c w) = Ret tt /\
    (ext 1 0 0 w (snd (c w)) \/ ext 0 1 0 w (snd (c w))).

(** Fault injection is switched off. *)
Definition injection_off (w : World) : Prop :=
  FAILURE_INJECTION_ENABLED (config w) = false.

(** A computation that never raises while fault injection is off. *)
Definition returns_uninjected {A : Type} (c : M A) : Prop :=
  forall w, injection_off w -> exists a, fst (c w) = Ret a.

(** A computation that, while fault injection is off, returns having counted
    the event as processed. *)
Definition processed (c : M unit) : Prop :=
  forall w, injection_off w ->
    fst (c w) = Ret tt /\ ext 1 0 0 w (snd (c w)).

(** A computation that leaves the processor object, the configuration and
    the task list alone and only extends the trace. *)
Definition keeps {A : Type} (c : M A) : Prop :=
  forall w, exists p f k, ext p f k w (snd (c w)).

(** A computation that makes exactly [n] checkpoint calls and otherwise
    behaves like one that [keeps]. *)
Definition checkpoints {A : Type} (n : nat) (c : M A) : Prop :=
  forall w, exists p f, ext p f n w (snd (c w)).

Definition is_batch (d : Delivery) : bool :=
  match d with
  | Batch _ _ => true
  | PartitionError _ _ => false
  end.

(** The number of batches among the deliveries of the stream client. *)
Definition batch_count (ds : list Delivery) : nat :=
  length (List.filter is_batch ds).

(** The list under [key] exists, holds at most 100 entries and expires in an
    hour. *)
Definition list_fresh (key : string) (w : World) : Prop :=
  exists l, redis_lists w !! key = Some l /\ length l <= 100 /\
            redis_ttl w !! key = Some 3600%Z.

(** No list in the cache holds more than 100 entries. *)
Definition lists_bounded (w : World) : Prop :=
  forall key l, redis_lists w !! key = Some l -> length l <= 100.

(** ** Reading a run: frames, notifications and fault injection *)

(** [stable R c]: every run of [c] ends in a world related by [R] to the one
    it started in, whether it returns or raises. *)
Definition stable {A : Type} (R : World -> World -> Prop) (c : M A) : Prop :=
  forall w, R w (snd (c w)).

(** A computation that always raises. *)
Definition raises {A : Type} (c : M A) : Prop :=
  forall w, exists e, fst (c w) = Raise e.

(** A computation that returns with [p] events counted as processed and [f]
    as failed. *)
Definition outcome (p f : nat) (c : M unit) : Prop :=
  forall w, fst (c w) = Ret tt /\ ext p f 0 w (snd (c w)).

(** Neither the document store nor the cache has changed. *)
Definition stores_untouched (w w' : World) : Prop :=
  cosmos_items w' = cosmos_items w /\ redis_lists w' = redis_lists w /\
  redis_ttl w' = redis_ttl w.

Definition cosmos_untouched (w w' : World) : Prop :=
  cosmos_items w' = cosmos_items w.

Definition redis_untouched (w w' : World) : Prop :=
  redis_lists w' = redis_lists w /\ redis_ttl w' = redis_ttl w.

(** The checkpoint store has not changed. *)
Definition checkpoint_untouched (w w' : World) : Prop :=
  checkpoint_store w' = checkpoint_store w.

(** Every document id of the store is still there. *)
Definition docs_kept (w w' : World) : Prop :=
  dom (cosmos_items w) ⊆ dom (cosmos_items w').

(** The trace has grown by effects none of which satisfies [P]. *)
Definition emits_no (P : Effect -> bool) (w w' : World) : Prop :=
  exists d, trace w' = trace w ++ d /\ count P d = 0.

(** Same world up to the trace and the step counter. *)
Definition same_state (w w' : World) : Prop :=
  processor w' = processor w /\ config w' = config w /\
  cosmos_items w' = cosmos_items w /\ redis_lists w' = redis_lists w /\
  redis_ttl w' = redis_ttl w /\ tasks w' = tasks w /\
  checkpoint_store w' = checkpoint_store w.

(** What [send_notification] logs for one notification. *)
Definition notification (customer_id : json) (message : string) : Effect :=
  Log LInfo "Notification sent"
    [("customer_id", VPy customer_id); ("message", VStr message)].

Definition is_notification (e : Effect) : bool :=
  match e with
  | Log _ msg _ => String.eqb msg "Notification sent"
  | _ => false
  end.

(** The span of one of the three handlers is opened. *)
Definition is_dispatch (e : Effect) : bool :=
  match e with
  | SpanStart name =>
      String.eqb name "handle_order_created"
      || String.eqb name "handle_order_status_updated"
      || String.eqb name "handle_generic_event"
  | _ => false
  end.

Definition is_sleep (e : Effect) : bool :=
  match e with
  | Sleep _ => true
  | _ => false
  end.

Definition is_client_closed (e : Effect) : bool :=
  match e with
  | ClientClosed _ => true
  | _ => false
  end.

(** The errors counter goes up for a fatal error of the receive call. *)
Definition is_consumer_error (e : Effect) : bool :=
  match e with
  | CounterAdd name _ [(label, value)] =>
      String.eqb name "event_processing_errors_total" &&
      String.eqb label "error_type" && String.eqb value "consumer_error"
  | _ => false
  end.

(** The error types [maybe_inject_failure] chooses from. *)
Definition error_types : list string := ["network"; "database"; "processing"; "timeout"].

(** An injected delay lasts between 0.1 and 2 seconds. *)
Definition delay_in_range (e : Effect) : Prop :=
  match e with
  | Sleep d => (1 # 10 <= d /\ d <= 2)%Q
  | _ => True
  end.

(** The settings that [configure_failure_injection] has no business with. *)
Definition connection_settings (c : Config) : list string :=
  [EVENT_HUB_CONNECTION_STRING c; EVENT_HUB_NAME c; CONSUMER_GROUP c;
   COSMOS_ENDPOINT c; COSMOS_KEY c; COSMOS_DATABASE c; COSMOS_CONTAINER c;
   REDIS_URL c].

(** * Reasoning about runs *)

(** Unfold the program text and the monad down to the oracle consultations,
    leaving pure helpers and the oracles themselves untouched.  Worlds are
    taken apart first so that field accesses compute. *)
Ltac exec :=
  cbv beta iota zeta delta
    [initialize maybe_inject_failure send_notification handle_order_created
     handle_order_status_updated handle_generic_event
     store_processed_event store_processed_event_except cache_event_summary
     process_single_event update_checkpoint on_event_batch on_error
     receive_batch async_with process_events create_task run_coroutine
     startup_event health_check start_processing get_failure_injection_config
     configure_failure_injection set_failure_injection
     with_span try_except bind ret raise gets modify when emit tick logger
     net_call now utcnow random uniform choice asyncio_sleep py_get py_keys
     upsert_item lpush ltrim expire
     set_processor set_config set_cosmos_items set_redis_lists set_redis_ttl
     set_tasks set_trace set_steps set_checkpoint_store set_running
     set_redis_client set_cosmos set_eventhub
     processor config cosmos_items redis_lists redis_ttl tasks trace steps
     checkpoint_store
     redis_client cosmos_client cosmos_container consumer_client
     producer_client running
     FAILURE_INJECTION_ENABLED LATENCY_INJECTION_PROBABILITY
     ERROR_INJECTION_PROBABILITY REDIS_URL COSMOS_ENDPOINT COSMOS_KEY
     COSMOS_DATABASE COSMOS_CONTAINER EVENT_HUB_CONNECTION_STRING
     enabled latency_probability error_probability
     doc_id is_some negb andb default from_option id fst snd].

Ltac exec_in H :=
  cbv beta iota zeta delta
    [processor config cosmos_items redis_lists redis_ttl tasks trace steps
     checkpoint_store
     redis_client cosmos_client cosmos_container consumer_client
     producer_client running
     FAILURE_INJECTION_ENABLED LATENCY_INJECTION_PROBABILITY
     ERROR_INJECTION_PROBABILITY REDIS_URL COSMOS_ENDPOINT COSMOS_KEY
     COSMOS_DATABASE COSMOS_CONTAINER EVENT_HUB_CONNECTION_STRING
     is_some negb fst snd Nat.add] in H.

(** ** Sample surroundings, used to run the model on concrete inputs *)

Definition sample_loads (s : string) : Exn + json :=
  if String.eqb s "{order O1}" then
    inr (JObj [("OrderId", JStr "O1"); ("CustomerId", JStr "C1")])
  else if String.eqb s "{foo bar}" then
    inr (JObj [("foo", JInt 1); ("bar", JInt 2)])
  else
    inl (PyExc "JSONDecodeError" "Expecting value: line 1 column 1 (char 0)").

Definition sample_config : Config :=
  mkConfig "Endpoint=sb://demo/" "orders" "$Default"
           "https://demo.documents.azure.com" "key" "EventProcessing" "ProcessedEvents"
           "redis://localhost:6379" true (1 # 10) (5 # 100).

Definition fresh_processor : Processor :=
  mkProcessor None None None None None false.

Definition ready_processor : Processor :=
  mkProcessor (Some "redis://localhost:6379") (Some "https://demo.documents.azure.com")
              (Some ("EventProcessing", "ProcessedEvents"))
              (Some "Endpoint=sb://demo/") (Some "Endpoint=sb://demo/") false.

(** The same configuration with fault injection switched off. *)
Definition uninjected_config : Config :=
  mkConfig "Endpoint=sb://demo/" "orders" "$Default"
           "https://demo.documents.azure.com" "key" "EventProcessing" "ProcessedEvents"
           "redis://localhost:6379" false (1 # 10) (5 # 100).

(** Only the cache is configured. *)
Definition bare_config : Config :=
  mkConfig "" "orders" "$Default" "" "" "EventProcessing" "ProcessedEvents"
           "redis://localhost:6379" true (1 # 10) (5 # 100).

Definition sample_world (p : Processor) (c : Config) : World :=
  mkWorld p c ∅ ∅ ∅ [] [] 0 ∅.

Definition order_body : list (string * json) :=
  [("OrderId", JStr "O1"); ("CustomerId", JStr "C1")].

Definition order_event : EventData :=
  mkEventData "{order O1}" [("EventType", "OrderCreated"); ("Source", "order-api")].

Definition malformed_event : EventData :=
  mkEventData "not json" [("EventType", "OrderCreated")].

(** Surroundings in which nothing fails, the clock advances by one second
    per reading and every random draw is [1/2]. *)
Definition calm_env (ds : list Delivery) (ending : option Exn) : Env :=
  mkEnv (fun n => inject_Z (Z.of_nat n)) (fun n => "T" +:+ pretty n)
        (fun _ => (1 # 2)%Q) (fun _ _ => 0) (fun _ => None)
        (fun _ => None) (fun _ _ => None) (fun _ => None)
        sample_loads (fun _ => "{...}") (fun _ => "<repr>")
        ds ending.

(** The same, except that every network call fails with [e]. *)
Definition failing_env (e : Exn) : Env :=
  mkEnv (fun n => inject_Z (Z.of_nat n)) (fun n => "T" +:+ pretty n)
        (fun _ => (1 # 2)%Q) (fun _ _ => 0) (fun _ => Some e)
        (fun _ => None) (fun _ _ => None) (fun _ => None)
        sample_loads (fun _ => "{...}") (fun _ => "<repr>")
        [] None.

(** Calm surroundings in which the one network call issued at step [k]
    fails with [e]. *)
Definition one_fault_env (k : nat) (e : Exn) : Env :=
  mkEnv (fun n => inject_Z (Z.of_nat n)) (fun n => "T" +:+ pretty n)
        (fun _ => (1 # 2)%Q) (fun _ _ => 0)
        (fun n => if Nat.eqb n k then Some e else None)
        (fun _ => None) (fun _ _ => None) (fun _ => None)
        sample_loads (fun _ => "{...}") (fun _ => "<repr>")
        [] None.

(** A world whose cache holds a full list of 100 entries for created
    orders, with half an hour left to live. *)
Definition full_cache_world : World :=
  mkWorld ready_processor uninjected_config ∅
          {["recent_events:OrderCreated" := replicate 100 "old"]}
          {["recent_events:OrderCreated" := 1800%Z]} [] [] 0 ∅.

(** Calm surroundings whose clock reads 1730000000.0565 up to step 2 and
    1730000000.057 from step 3 on, each as the nearest binary64 number. *)
Definition fine_clock_env : Env :=
  mkEnv (fun n => if Nat.ltb n 3 then round_binary64 (17300000000565 # 10000)
                  else round_binary64 (1730000000057 # 1000))
        (fun n => "T" +:+ pretty n)
        (fun _ => (1 # 2)%Q) (fun _ _ => 0) (fun _ => None)
        (fun _ => None) (fun _ _ => None) (fun _ => None)
        sample_loads (fun _ => "{...}") (fun _ => "<repr>")
        [] None.

(** Surroundings in which every random draw is [0], so that with a positive
    probability both the delay and the error are injected, and
    [random.choice] picks the second entry. *)
Definition stormy_env : Env :=
  mkEnv (fun n => inject_Z (Z.of_nat n)) (fun n => "T" +:+ pretty n)
        (fun _ => 0%Q) (fun _ _ => 1) (fun _ => None)
        (fun _ => None) (fun _ _ => None) (fun _ => None)
        sample_loads (fun _ => "{...}") (fun _ => "<repr>")
        [] None.

(** Calm surroundings whose decoder also knows one JSON array. *)
Definition array_env : Env :=
  mkEnv (fun n => inject_Z (Z.of_nat n)) (fun n => "T" +:+ pretty n)
        (fun _ => (1 # 2)%Q) (fun _ _ => 0) (fun _ => None)
        (fun _ => None) (fun _ _ => None) (fun _ => None)
        (fun s => if String.eqb s "[1, 2]" then inr (JArr [JInt 1; JInt 2])
                  else sample_loads s)
        (fun _ => "{...}") (fun _ => "<repr>")
        [] None.

Definition array_event : EventData :=
  mkEventData "[1, 2]" [("EventType", "OrderCreated"); ("Source", "order-api")].

Definition status_event : EventData :=
  mkEventData "{order O1}" [("EventType", "OrderStatusUpdated"); ("Source", "order-api")].

(** A payload without an [OrderId]. *)
Definition anonymous_body : list (string * json) :=
  [("foo", JInt 1); ("bar", JInt 2)].

(** ** Counting in traces *)

Lemma count_app (f : Effect -> bool) (d1 d2 : list Effect) :
  count f (d1 ++ d2) = count f d1 + count f d2.
Proof. unfold count. rewrite List.filter_app, length_app. reflexivity. Qed.

Lemma count_cons (f : Effect -> bool) (e : Effect) (d : list Effect) :
  count f (e :: d) = (if f e then 1 else 0) + count f d.
Proof. unfold count. simpl. destruct (f e); reflexivity. Qed.

(** ** [ext] is a graded preorder *)

Lemma ext_refl (w : World) : ext 0 0 0 w w.
Proof.
  constructor; try reflexivity.
  exists []. rewrite app_nil_r. repeat split; reflexivity.
Qed.

Lemma ext_trans (p f k p' f' k' : nat) (w1 w2 w3 : World) :
  ext p f k w1 w2 -> ext p' f' k' w2 w3 -> ext (p + p') (f + f') (k + k') w1 w3.
Proof.
  intros [Hp Hc Ht (d & Hd & Hdp & Hdf & Hdk)] [Hp' Hc' Ht' (d' & Hd' & Hdp' & Hdf' & Hdk')].
  constructor; try congruence.
  exists (d ++ d'). rewrite Hd', Hd, app_assoc, !count_app.
  repeat split; congruence.
Qed.

Lemma ext_quiet_l (p f k : nat) (w1 w2 w3 : World) :
  ext 0 0 0 w1 w2 -> ext p f k w2 w3 -> ext p f k w1 w3.
Proof. intros H1 H2. exact (ext_trans 0 0 0 p f k w1 w2 w3 H1 H2). Qed.

Lemma ext_quiet_r (p f k : nat) (w1 w2 w3 : World) :
  ext p f k w1 w2 -> ext 0 0 0 w2 w3 -> ext p f k w1 w3.
Proof.
  intros H1 H2. pose proof (ext_trans p f k 0 0 0 w1 w2 w3 H1 H2) as H.
  rewrite !Nat.add_0_r in H. exact H.
Qed.

Lemma ext_emit (e : Effect) (w : World) :
  ext (count is_processed [e]) (count is_failed [e]) (count is_checkpoint [e])
      w (set_trace (trace w ++ [e]) w).
Proof.
  destruct w. constructor; try reflexivity.
  exists [e]. repeat split; reflexivity.
Qed.

(** ** Rules for [quiet] *)

Section Rules.

Context {A B : Type}.

Lemma quiet_ret (a : A) : quiet (ret a).
Proof. intros w. apply ext_refl. Qed.

Lemma quiet_raise (e : Exn) : quiet (@raise A e).
Proof. intros w. apply ext_refl. Qed.

Lemma quiet_gets (f : World -> A) : quiet (gets f).
Proof. intros w. apply ext_refl. Qed.

Lemma quiet_bind (c : M A) (k : A -> M B) :
  quiet c -> (forall a, quiet (k a)) -> quiet (bind c k).
Proof.
  intros Hc Hk w. unfold bind. specialize (Hc w).
  destruct (c w) as [[a | e] w']; simpl in *; [|exact Hc].
  eapply ext_quiet_l; [exact Hc | apply Hk].
Qed.

Lemma quiet_try_except (c : M A) (h : Exn -> M A) :
  quiet c -> (forall e, quiet (h e)) -> quiet (try_except c h).
Proof.
  intros Hc Hh w. unfold try_except. specialize (Hc w).
  destruct (c w) as [[a | e] w']; simpl in *; [exact Hc|].
  eapply ext_quiet_l; [exact Hc | apply Hh].
Qed.

Lemma returns_ret (a : A) : returns (ret a).
Proof. intros w. exists a. reflexivity. Qed.

Lemma returns_gets (f : World -> A) : returns (gets f).
Proof. intros w. exists (f w). reflexivity. Qed.

Lemma returns_bind (c : M A) (k : A -> M B) :
  returns c -> (forall a, returns (k a)) -> returns (bind c k).
Proof.
  intros Hc Hk w. unfold bind. destruct (Hc w) as [a Ha].
  destruct (c w) as [[a' | e] w']; simpl in *; [|discriminate].
  apply Hk.
Qed.

Lemma returns_try_except (c : M A) (h : Exn -> M A) :
  (forall e, returns (h e)) -> returns (try_except c h).
Proof.
  intros Hh w. unfold try_except.
  destruct (c w) as [[a | e] w']; simpl; [eauto | apply Hh].
Qed.

End Rules.

Lemma quiet_emit (e : Effect) :
  is_processed e = false -> is_failed e = false -> is_checkpoint e = false ->
  quiet (emit e).
Proof.
  intros Hp Hf Hk w. pose proof (ext_emit e w) as H.
  rewrite !count_cons, Hp, Hf, Hk in H. exact H.
Qed.

Lemma returns_emit (e : Effect) : returns (emit e).
Proof. intros w. exists tt. reflexivity. Qed.

Lemma quiet_logger lvl msg fields : quiet (logger lvl msg fields).
Proof. apply quiet_emit; reflexivity. Qed.

Lemma returns_logger lvl msg fields : returns (logger lvl msg fields).
Proof. apply returns_emit. Qed.

Lemma quiet_tick : quiet tick.
Proof. intros [p c items lists ttl ts tr n]. apply (ext_refl (mkWorld p c items lists ttl ts tr n)) || (constructor; try reflexivity; exists []; rewrite app_nil_r; repeat split; reflexivity). Qed.

Lemma returns_tick : returns tick.
Proof. intros w. eexists. reflexivity. Qed.

Lemma quiet_when (b : bool) (c : M unit) : quiet c -> quiet (when b c).
Proof. intros Hc. destruct b; [exact Hc | apply quiet_ret]. Qed.

Lemma returns_when (b : bool) (c : M unit) : returns c -> returns (when b c).
Proof. intros Hc. destruct b; [exact Hc | apply returns_ret]. Qed.

Lemma quiet_for_each {A : Type} (xs : list A) (body : A -> M unit) :
  (forall x, quiet (body x)) -> quiet (for_each xs body).
Proof.
  intros Hb. induction xs as [|x xs IH]; simpl.
  - apply quiet_ret.
  - apply quiet_bind; [apply Hb | intros _; exact IH].
Qed.

(** A store or cache update touches nothing [ext] looks at. *)
Lemma quiet_modify (f : World -> World) :
  (forall w, processor (f w) = processor w /\ config (f w) = config w /\
             tasks (f w) = tasks w /\ trace (f w) = trace w) ->
  quiet (modify f).
Proof.
  intros Hf w. destruct (Hf w) as (Hp & Hc & Ht & Htr).
  constructor; simpl; try assumption.
  exists []. rewrite app_nil_r. repeat split; try reflexivity. exact Htr.
Qed.

Lemma quiet_with_span {A : Type} (name : string) (body : M A) :
  quiet body -> quiet (with_span name body).
Proof.
  intros Hb. unfold with_span.
  apply quiet_bind; [apply quiet_emit; reflexivity | intros _].
  apply quiet_try_except.
  - apply quiet_bind; [exact Hb | intros a].
    apply quiet_bind; [apply quiet_emit; reflexivity | intros _; apply quiet_ret].
  - intros e. repeat (apply quiet_bind; [apply quiet_emit; reflexivity | intros _]).
    apply quiet_raise.
Qed.

Create HintDb quiet.

#[export] Hint Resolve quiet_ret quiet_raise quiet_gets quiet_tick
  quiet_logger quiet_when quiet_for_each returns_ret returns_gets returns_tick
  returns_logger returns_emit returns_when : quiet.

(** Walk through a computation, one combinator at a time. *)
Ltac quiet_step :=
  match goal with
  | |- forall _, _ => intro
  | |- quiet (bind _ _) => apply quiet_bind
  | |- quiet (try_except _ _) => apply quiet_try_except
  | |- quiet (when _ _) => apply quiet_when
  | |- quiet (for_each _ _) => apply quiet_for_each
  | |- quiet (with_span _ _) => apply quiet_with_span
  | |- quiet (emit _) => apply quiet_emit; reflexivity
  | |- quiet (modify _) => apply quiet_modify; intros []; repeat split
  | |- quiet (match ?x with _ => _ end) => destruct x
  | |- returns (bind _ _) => apply returns_bind
  | |- returns (try_except _ _) => apply returns_try_except
  | |- returns (when _ _) => apply returns_when
  | |- returns (match ?x with _ => _ end) => destruct x
  | |- _ => solve [auto with quiet]
  end.

Ltac quiet := repeat quiet_step.

Section QuietProgram.

Variable env : Env.

Lemma quiet_net_call : quiet (net_call env).
Proof. unfold net_call. quiet. Qed.

Lemma quiet_now : quiet (now env).
Proof. unfold now. quiet. Qed.

Lemma returns_now : returns (now env).
Proof. unfold now. quiet. Qed.

Lemma quiet_utcnow : quiet (utcnow env).
Proof. unfold utcnow. quiet. Qed.

Lemma quiet_random : quiet (random env).
Proof. unfold random. quiet. Qed.

Hint Resolve quiet_net_call quiet_now returns_now quiet_utcnow quiet_random : quiet.

Lemma quiet_uniform a b : quiet (uniform env a b).
Proof. unfold uniform. quiet. Qed.

Lemma quiet_choice seq : quiet (choice env seq).
Proof. unfold choice. quiet. Qed.

Lemma quiet_asyncio_sleep d : quiet (asyncio_sleep d).
Proof. unfold asyncio_sleep. quiet. Qed.

Lemma quiet_py_get v key dflt : quiet (py_get v key dflt).
Proof. unfold py_get. quiet. Qed.

Lemma quiet_py_keys v : quiet (py_keys v).
Proof. unfold py_keys. quiet. Qed.

Hint Resolve quiet_uniform quiet_choice quiet_asyncio_sleep quiet_py_get quiet_py_keys : quiet.

Lemma returns_with_span {A : Type} (name : string) (body : M A) :
  returns body -> returns (with_span name body).
Proof.
  intros Hb w. unfold with_span, bind, try_except, emit, modify.
  destruct (Hb (set_trace (trace w ++ [SpanStart name]) w)) as [a Ha].
  simpl. destruct (body _) as [[a' | e] w']; simpl in *; [|discriminate].
  eauto.
Qed.

Lemma quiet_upsert_item document : quiet (upsert_item env document).
Proof. unfold upsert_item. quiet. Qed.

Lemma quiet_lpush key value : quiet (lpush env key value).
Proof. unfold lpush. quiet. Qed.

Lemma quiet_ltrim key start stop : quiet (ltrim env key start stop).
Proof.
  unfold ltrim. apply quiet_bind; [quiet | intros _].
  apply quiet_modify. intros w.
  destruct (redis_lists w !! key) as [l|]; [|repeat split].
  destruct (take (S stop - start) (drop start l)); destruct w; repeat split.
Qed.

Lemma quiet_expire key seconds : quiet (expire env key seconds).
Proof.
  unfold expire. apply quiet_bind; [quiet | intros _].
  apply quiet_modify. intros w.
  destruct (redis_lists w !! key); destruct w; repeat split.
Qed.

Hint Resolve quiet_upsert_item quiet_lpush quiet_ltrim quiet_expire : quiet.

Lemma quiet_maybe_inject_failure operation : quiet (maybe_inject_failure env operation).
Proof. unfold maybe_inject_failure. quiet. Qed.

Lemma quiet_send_notification customer_id message :
  quiet (send_notification env customer_id message).
Proof. unfold send_notification. quiet. Qed.

Hint Resolve quiet_maybe_inject_failure quiet_send_notification : quiet.

Lemma quiet_handle_order_created event_data :
  quiet (handle_order_created env event_data).
Proof. unfold handle_order_created. quiet. Qed.

Lemma quiet_handle_order_status_updated event_data :
  quiet (handle_order_status_updated env event_data).
Proof. unfold handle_order_status_updated. quiet. Qed.

Lemma quiet_handle_generic_event event_data :
  quiet (handle_generic_event env event_data).
Proof. unfold handle_generic_event. quiet. Qed.

Lemma quiet_store_processed_event_except event_type order_id e :
  quiet (store_processed_event_except env event_type order_id e).
Proof. unfold store_processed_event_except. quiet. Qed.

Hint Resolve quiet_store_processed_event_except : quiet.

Lemma quiet_store_processed_event event_data event_type :
  quiet (store_processed_event env event_data event_type).
Proof. unfold store_processed_event. quiet. Qed.

Lemma quiet_cache_event_summary event_data event_type :
  quiet (cache_event_summary env event_data event_type).
Proof. unfold cache_event_summary. quiet. Qed.

End QuietProgram.

#[export] Hint Resolve quiet_net_call quiet_now returns_now quiet_utcnow quiet_random
  quiet_uniform quiet_choice quiet_asyncio_sleep quiet_py_get quiet_py_keys
  quiet_upsert_item quiet_lpush quiet_ltrim quiet_expire
  quiet_maybe_inject_failure quiet_send_notification
  quiet_handle_order_created quiet_handle_order_status_updated
  quiet_handle_generic_event quiet_store_processed_event
  quiet_cache_event_summary : quiet.

(** ** Rules for [counted] and [settled] *)

Lemma counted_bind_quiet {A B : Type} (c : M A) (k : A -> M B) :
  quiet c -> (forall a, counted (k a)) -> counted (bind c k).
Proof.
  intros Hc Hk w. unfold bind. specialize (Hc w).
  destruct (c w) as [[a | e] w']; simpl in *; [|exact Hc].
  specialize (Hk a w').
  destruct (fst (k a w')); eapply ext_quiet_l; eauto.
Qed.

Lemma counted_emit {B : Type} (e : Effect) (k : M B) :
  is_processed e = true -> is_failed e = false -> is_checkpoint e = false ->
  quiet k -> returns k -> counted (bind (emit e) (fun _ => k)).
Proof.
  intros Hp Hf Hk Hq Hr w. unfold bind, emit, modify.
  set (w1 := set_trace (trace w ++ [e]) w).
  destruct (Hr w1) as [b Hb]. rewrite Hb.
  eapply ext_quiet_r; [|apply Hq].
  pose proof (ext_emit e w) as H.
  rewrite !count_cons, Hp, Hf, Hk in H. exact H.
Qed.

Lemma settled_try_except (c : M unit) (h : Exn -> M unit) :
  counted c ->
  (forall e w, fst (h e w) = Ret tt /\ ext 0 1 0 w (snd (h e w))) ->
  settled (try_except c h).
Proof.
  intros Hc Hh w. unfold try_except. specialize (Hc w).
  destruct (c w) as [[[] | e] w']; simpl in *.
  - split; [reflexivity | left; exact Hc].
  - destruct (Hh e w') as [Hret Hext]. split; [exact Hret|].
    right. eapply ext_quiet_l; eauto.
Qed.

Lemma settled_with_span (name : string) (c : M unit) :
  settled c -> settled (with_span name c).
Proof.
  intros Hc w. unfold with_span, bind, try_except, emit, modify, ret.
  set (w1 := set_trace (trace w ++ [SpanStart name]) w).
  assert (H1 : ext 0 0 0 w w1) by (apply (quiet_emit (SpanStart name)); reflexivity).
  destruct (Hc w1) as [Hret Hext].
  destruct (c w1) as [[[] | e] w2]; simpl in *; [|discriminate].
  split; [reflexivity|].
  assert (H2 : ext 0 0 0 w2 (set_trace (trace w2 ++ [SpanEnd name]) w2))
    by (apply (quiet_emit (SpanEnd name)); reflexivity).
  destruct Hext as [Hext | Hext]; [left | right];
    (eapply ext_quiet_l; [exact H1|]; eapply ext_quiet_r; [exact Hext | exact H2]).
Qed.

Lemma settled_bind {A : Type} (c : M A) (k : A -> M unit) :
  quiet c -> returns c -> (forall a, settled (k a)) -> settled (bind c k).
Proof.
  intros Hq Hr Hk w. unfold bind. specialize (Hq w). destruct (Hr w) as [a Ha].
  destruct (c w) as [[a' | e] w']; simpl in *; [|discriminate].
  destruct (Hk a' w') as [Hret Hext]. split; [exact Hret|].
  destruct Hext; [left | right]; eapply ext_quiet_l; eauto.
Qed.

(** A loop of settled iterations returns, having settled every element. *)
Lemma for_each_settled {A : Type} (xs : list A) (body : A -> M unit) :
  (forall x, settled (body x)) ->
  forall w, fst (for_each xs body w) = Ret tt /\
            exists p f, p + f = length xs /\ ext p f 0 w (snd (for_each xs body w)).
Proof.
  intros Hb. induction xs as [|x xs IH]; intros w; simpl.
  - split; [reflexivity|]. exists 0, 0. split; [reflexivity | apply ext_refl].
  - unfold bind. destruct (Hb x w) as [Hret Hext].
    destruct (body x w) as [[[] | e] w1]; simpl in *; [|discriminate].
    destruct (IH w1) as [Hret' (p & f & Hlen & Hext')].
    split; [exact Hret'|].
    destruct Hext as [Hext | Hext].
    + exists (S p), f. split; [lia|]. exact (ext_trans 1 0 0 p f 0 _ _ _ Hext Hext').
    + exists p, (S f). split; [lia|]. exact (ext_trans 0 1 0 p f 0 _ _ _ Hext Hext').
Qed.

Section Settled.

Variable env : Env.

(** Whatever the event and the surroundings, [process_single_event] returns,
    and the event has been counted exactly once: as processed or as failed. *)
Lemma settled_process_single_event event partition_context :
  settled (process_single_event env event partition_context).
Proof.
  unfold process_single_event.
  apply settled_bind; [auto with quiet | auto with quiet | intros start_time].
  apply settled_with_span, settled_try_except.
  - repeat (apply counted_bind_quiet; [solve [quiet] | intros]).
    apply counted_emit; try reflexivity; quiet.
  - intros e [p c items lists ttl ts tr n]. exec. split; [reflexivity|].
    constructor; try reflexivity.
    eexists. split; [rewrite <- !app_assoc; reflexivity|].
    repeat split; reflexivity.
Qed.

End Settled.

Lemma for_each_app {A : Type} (xs ys : list A) (body : A -> M unit) (w : World) :
  fst (for_each xs body w) = Ret tt ->
  for_each (xs ++ ys) body w = for_each ys body (snd (for_each xs body w)).
Proof.
  revert w. induction xs as [|x xs IH]; intros w Hret; simpl in *.
  - reflexivity.
  - unfold bind in *. destruct (body x w) as [[[] | e] w1]; simpl in *.
    + apply IH, Hret.
    + discriminate.
Qed.

(** ** Running with fault injection switched off *)

Lemma returns_uninjected_of_returns {A : Type} (c : M A) :
  returns c -> returns_uninjected c.
Proof. intros Hc w _. apply Hc. Qed.

Lemma returns_uninjected_bind {A B : Type} (c : M A) (k : A -> M B) :
  quiet c -> returns_uninjected c -> (forall a, returns_uninjected (k a)) ->
  returns_uninjected (bind c k).
Proof.
  intros Hq Hc Hk w Hoff. unfold bind.
  destruct (Hc w Hoff) as [a Ha]. pose proof (ext_config _ _ _ _ _ (Hq w)) as Hcfg.
  destruct (c w) as [[a' | e] w']; simpl in *; [|discriminate].
  apply Hk. unfold injection_off. rewrite Hcfg. exact Hoff.
Qed.

Lemma bind_ret_l {A B : Type} (a : A) (k : A -> M B) : bind (ret a) k = k a.
Proof. reflexivity. Qed.

Lemma processed_try_except (c : M unit) (h : Exn -> M unit) :
  counted c -> returns_uninjected c -> processed (try_except c h).
Proof.
  intros Hc Hr w Hoff. unfold try_except.
  specialize (Hc w). destruct (Hr w Hoff) as [a Ha].
  destruct (c w) as [[[] | e] w']; simpl in *; [|discriminate].
  split; [reflexivity | exact Hc].
Qed.

Lemma processed_with_span (name : string) (c : M unit) :
  processed c -> processed (with_span name c).
Proof.
  intros Hc w Hoff. unfold with_span, bind, try_except, emit, modify, ret.
  set (w1 := set_trace (trace w ++ [SpanStart name]) w).
  assert (H1 : ext 0 0 0 w w1) by (apply (quiet_emit (SpanStart name)); reflexivity).
  assert (Hoff1 : injection_off w1) by (destruct w; exact Hoff).
  destruct (Hc w1 Hoff1) as [Hret Hext].
  destruct (c w1) as [[[] | e] w2]; simpl in *; [|discriminate].
  split; [reflexivity|].
  eapply ext_quiet_l; [exact H1|]. eapply ext_quiet_r; [exact Hext|].
  apply (quiet_emit (SpanEnd name)); reflexivity.
Qed.

Lemma processed_bind {A : Type} (c : M A) (k : A -> M unit) :
  quiet c -> returns c -> (forall a, processed (k a)) -> processed (bind c k).
Proof.
  intros Hq Hr Hk w Hoff. unfold bind.
  pose proof (Hq w) as Hext. destruct (Hr w) as [a Ha].
  destruct (c w) as [[a' | e] w']; simpl in *; [|discriminate].
  assert (Hoff' : injection_off w').
  { unfold injection_off. rewrite (ext_config _ _ _ _ _ Hext). exact Hoff. }
  destruct (Hk a' w' Hoff') as [Hret Hext']. split; [exact Hret|].
  eapply ext_quiet_l; eauto.
Qed.

Section Uninjected.

Variable env : Env.

Lemma returns_utcnow : returns (utcnow env).
Proof. unfold utcnow. quiet. Qed.

Lemma returns_uniform a b : returns (uniform env a b).
Proof. unfold uniform, random. quiet. Qed.

Lemma returns_asyncio_sleep d : returns (asyncio_sleep d).
Proof. unfold asyncio_sleep. quiet. Qed.

Hint Resolve returns_utcnow returns_uniform returns_asyncio_sleep : quiet.

Lemma returns_send_notification customer_id message :
  returns (send_notification env customer_id message).
Proof. unfold send_notification. apply returns_with_span. quiet. Qed.

Hint Resolve returns_send_notification : quiet.

(** On a dict, the three handlers cannot fail. *)
Lemma returns_handle_order_created kvs :
  returns (handle_order_created env (JObj kvs)).
Proof. unfold handle_order_created. apply returns_with_span. unfold py_get. quiet. Qed.

Lemma returns_handle_order_status_updated kvs :
  returns (handle_order_status_updated env (JObj kvs)).
Proof. unfold handle_order_status_updated. apply returns_with_span. unfold py_get. quiet. Qed.

Lemma returns_handle_generic_event kvs :
  returns (handle_generic_event env (JObj kvs)).
Proof. unfold handle_generic_event. apply returns_with_span. unfold py_keys. quiet. Qed.

(** The store write never raises, whatever the data and whatever the store
    answers. *)
Lemma returns_store_processed_event event_data event_type :
  returns (store_processed_event env event_data event_type).
Proof.
  intros [p c items lists ttl ts tr n].
  destruct event_data; exec; try (eexists; reflexivity).
  destruct (net_fault env (S (S n))) as [e|]; exec; [|eexists; reflexivity].
  destruct (str_in "Conflict" (exn_str e)); [destruct (str_in "409" (exn_str e))|];
    exec; eexists; reflexivity.
Qed.

(** Nor does the cache write. *)
Lemma returns_cache_event_summary event_data event_type :
  returns (cache_event_summary env event_data event_type).
Proof. unfold cache_event_summary. quiet. Qed.

(** With injection off, [maybe_inject_failure] does nothing at all. *)
Lemma maybe_inject_failure_off operation w :
  injection_off w -> maybe_inject_failure env operation w = (Ret tt, w).
Proof.
  unfold injection_off, maybe_inject_failure, bind, gets. intros Hoff.
  rewrite Hoff. reflexivity.
Qed.

Lemma returns_uninjected_maybe_inject_failure operation :
  returns_uninjected (maybe_inject_failure env operation).
Proof. intros w Hoff. rewrite maybe_inject_failure_off by exact Hoff. eauto. Qed.

Hint Resolve returns_handle_order_created returns_handle_order_status_updated
  returns_handle_generic_event returns_store_processed_event
  returns_cache_event_summary : quiet.

(** An event whose payload decodes to a dict is counted as processed when
    fault injection is off, whatever the store and the cache answer. *)
Lemma processed_process_single_event event partition_context kvs :
  json_loads env (body_as_str event) = inr (JObj kvs) ->
  processed (process_single_event env event partition_context).
Proof.
  intros Hloads. unfold process_single_event.
  apply processed_bind; [auto with quiet | auto with quiet | intros start_time].
  apply processed_with_span, processed_try_except.
  - repeat (apply counted_bind_quiet; [solve [quiet] | intros]).
    apply counted_emit; try reflexivity; quiet.
  - rewrite Hloads, bind_ret_l.
    repeat (apply returns_uninjected_bind;
            [solve [quiet]
            |first [apply returns_uninjected_maybe_inject_failure
                   |apply returns_uninjected_of_returns; solve [quiet]]
            |intros]).
    apply returns_uninjected_of_returns. quiet.
Qed.

End Uninjected.

(** ** Rules for [keeps] *)

Lemma keeps_of_quiet {A : Type} (c : M A) : quiet c -> keeps c.
Proof. intros Hc w. exists 0, 0, 0. apply Hc. Qed.

Lemma keeps_of_settled (c : M unit) : settled c -> keeps c.
Proof.
  intros Hc w. destruct (Hc w) as [_ [H | H]]; [exists 1, 0, 0 | exists 0, 1, 0]; exact H.
Qed.

Lemma keeps_emit (e : Effect) : keeps (emit e).
Proof. intros w. do 3 eexists. apply ext_emit. Qed.

Lemma keeps_bind {A B : Type} (c : M A) (k : A -> M B) :
  keeps c -> (forall a, keeps (k a)) -> keeps (bind c k).
Proof.
  intros Hc Hk w. unfold bind. destruct (Hc w) as (p & f & n & H).
  destruct (c w) as [[a | e] w']; simpl in *; [|eauto].
  destruct (Hk a w') as (p' & f' & n' & H').
  do 3 eexists. eapply ext_trans; eauto.
Qed.

Lemma keeps_try_except {A : Type} (c : M A) (h : Exn -> M A) :
  keeps c -> (forall e, keeps (h e)) -> keeps (try_except c h).
Proof.
  intros Hc Hh w. unfold try_except. destruct (Hc w) as (p & f & n & H).
  destruct (c w) as [[a | e] w']; simpl in *; [eauto|].
  destruct (Hh e w') as (p' & f' & n' & H').
  do 3 eexists. eapply ext_trans; eauto.
Qed.

Lemma keeps_for_each {A : Type} (xs : list A) (body : A -> M unit) :
  (forall x, keeps (body x)) -> keeps (for_each xs body).
Proof.
  intros Hb. induction xs as [|x xs IH]; simpl.
  - apply keeps_of_quiet, quiet_ret.
  - apply keeps_bind; [apply Hb | intros _; exact IH].
Qed.

Lemma keeps_with_span {A : Type} (name : string) (body : M A) :
  keeps body -> keeps (with_span name body).
Proof.
  intros Hb. unfold with_span.
  apply keeps_bind; [apply keeps_emit | intros _].
  apply keeps_try_except.
  - apply keeps_bind; [exact Hb | intros a].
    apply keeps_bind; [apply keeps_emit | intros _; apply keeps_of_quiet, quiet_ret].
  - intros e. repeat (apply keeps_bind; [apply keeps_emit | intros _]).
    apply keeps_of_quiet, quiet_raise.
Qed.

Lemma bind_modify {B : Type} (f : World -> World) (k : unit -> M B) (w : World) :
  bind (modify f) k w = k tt (f w).
Proof. reflexivity. Qed.

Lemma bind_emit {B : Type} (e : Effect) (k : unit -> M B) (w : World) :
  bind (emit e) k w = k tt (set_trace (trace w ++ [e]) w).
Proof. reflexivity. Qed.

Section Keeps.

Variable env : Env.

Lemma keeps_on_event_batch partition_context event_batch :
  keeps (on_event_batch env partition_context event_batch).
Proof.
  unfold on_event_batch. apply keeps_with_span.
  repeat (apply keeps_bind; [apply keeps_emit | intros _]).
  apply keeps_bind.
  - apply keeps_for_each. intros event.
    apply keeps_of_settled, settled_process_single_event.
  - intros _. unfold update_checkpoint. cbv zeta.
    apply keeps_bind; [apply keeps_emit | intros _].
    apply keeps_of_quiet, quiet_bind; [apply quiet_net_call | intros _].
    apply quiet_modify. intros w. destruct w. repeat split.
Qed.

Lemma keeps_on_error partition_context error :
  keeps (on_error partition_context error).
Proof.
  unfold on_error, logger.
  apply keeps_bind; [apply keeps_emit | intros _; apply keeps_emit].
Qed.

Lemma keeps_receive_batch : keeps (receive_batch env).
Proof.
  unfold receive_batch. apply keeps_bind.
  - apply keeps_for_each. intros [pc event_batch | pc error].
    + apply keeps_try_except; [apply keeps_on_event_batch | intros e; apply keeps_on_error].
    + apply keeps_on_error.
  - intros _. apply keeps_of_quiet. destruct (receive_end env); [apply quiet_raise | apply quiet_ret].
Qed.

(** Once past its guard, the loop neither raises nor touches the processor
    object: a fatal error of the receive call is logged and counted. *)
Lemma process_events_loop (w : World) :
  let loop :=
    try_except
      (async_with "consumer_client" (receive_batch env))
      (fun e =>
         bind (logger LError "Event processing loop failed"
                 [("error", VStr (exn_str e))])
              (fun _ => emit (CounterAdd "event_processing_errors_total" 1
                                [("error_type", "consumer_error")]))) in
  fst (loop w) = Ret tt /\ processor (snd (loop w)) = processor w.
Proof.
  intros loop. split.
  - assert (H : returns loop).
    { apply returns_try_except. intros e.
      apply returns_bind; [apply returns_logger | intros _; apply returns_emit]. }
    destruct (H w) as [[] Hret]. exact Hret.
  - assert (H : keeps loop).
    { apply keeps_try_except.
      - unfold async_with. apply keeps_try_except.
        + apply keeps_bind; [apply keeps_receive_batch | intros a].
          apply keeps_bind; [apply keeps_emit | intros _; apply keeps_of_quiet, quiet_ret].
        + intros e. apply keeps_bind; [apply keeps_emit | intros _].
          apply keeps_of_quiet, quiet_raise.
      - intros e. apply keeps_bind; [apply keeps_emit | intros _; apply keeps_emit]. }
    destruct (H w) as (p & f & k & Hext). apply (ext_processor _ _ _ _ _ Hext).
Qed.

(** The guard and the entry of [process_events], spelled out. *)
Lemma process_events_unfold (w : World) :
  process_events env w =
    if is_some (consumer_client (processor w)) then
      try_except
        (async_with "consumer_client" (receive_batch env))
        (fun e =>
           bind (logger LError "Event processing loop failed"
                   [("error", VStr (exn_str e))])
                (fun _ => emit (CounterAdd "event_processing_errors_total" 1
                                  [("error_type", "consumer_error")])))
        (set_trace
           (trace w ++ [Log LInfo "Starting event processing" []])
           (set_processor (set_running true (processor w)) w))
    else
      (Ret tt,
       set_trace
         (trace w ++ [Log LError "Event Hub consumer client not initialized" []]) w).
Proof.
  unfold process_events, bind at 1, gets.
  destruct (is_some (consumer_client (processor w))); destruct w; reflexivity.
Qed.

(** [process_events] always returns; it sets [running] when the consumer
    client is there and changes nothing else of the processor object. *)
Lemma process_events_processor (w : World) :
  fst (process_events env w) = Ret tt /\
  processor (snd (process_events env w)) =
    if is_some (consumer_client (processor w))
    then set_running true (processor w)
    else processor w.
Proof.
  rewrite process_events_unfold.
  destruct (is_some (consumer_client (processor w))).
  - match goal with
    | |- context [try_except ?c ?h ?w1] =>
        destruct (process_events_loop w1) as [Hret Hproc]
    end.
    split; [exact Hret|]. etransitivity; [exact Hproc|].
    destruct w; reflexivity.
  - split; [reflexivity|]. destruct w; reflexivity.
Qed.

End Keeps.

(** ** Counting checkpoint calls *)

Lemma checkpoints_of_quiet {A : Type} (c : M A) : quiet c -> checkpoints 0 c.
Proof. intros Hc w. exists 0, 0. apply Hc. Qed.

Lemma checkpoints_bind {A B : Type} (n m : nat) (c : M A) (k : A -> M B) :
  returns c -> checkpoints n c -> (forall a, checkpoints m (k a)) ->
  checkpoints (n + m) (bind c k).
Proof.
  intros Hr Hc Hk w. unfold bind.
  destruct (Hr w) as [a Ha]. destruct (Hc w) as (p & f & H).
  destruct (c w) as [[a' | e] w']; simpl in *; [|discriminate].
  destruct (Hk a' w') as (p' & f' & H').
  exists (p + p'), (f + f'). eapply ext_trans; eauto.
Qed.

Lemma checkpoints_try_except {A : Type} (n : nat) (c : M A) (h : Exn -> M A) :
  checkpoints n c -> (forall e, checkpoints 0 (h e)) -> checkpoints n (try_except c h).
Proof.
  intros Hc Hh w. unfold try_except. destruct (Hc w) as (p & f & H).
  destruct (c w) as [[a | e] w']; simpl in *; [eauto|].
  destruct (Hh e w') as (p' & f' & H').
  exists (p + p'), (f + f'). rewrite <- (Nat.add_0_r n). eapply ext_trans; eauto.
Qed.

Section Checkpoints.

Variable env : Env.

(** What [on_event_batch] adds to the trace, split around its one
    checkpoint call. *)
Lemma on_event_batch_trace
    (partition_context : PartitionContext) (event_batch : list EventData) (w : World) :
  exists before after : list Effect,
    trace (snd (on_event_batch env partition_context event_batch w)) =
      trace w ++ before
        ++ UpdateCheckpoint (partition_id partition_context) :: after /\
    count is_processed before + count is_failed before = length event_batch /\
    count is_checkpoint before = 0 /\
    count is_processed after = 0 /\
    count is_failed after = 0 /\
    count is_checkpoint after = 0.
Proof.
  unfold on_event_batch, with_span, update_checkpoint, net_call.
  unfold try_except, bind, emit, modify, tick, ret, raise.
  match goal with
  | |- context [for_each event_batch ?body ?w1] =>
      destruct (for_each_settled event_batch body
                  (fun event => settled_process_single_event env event partition_context)
                  w1) as [Hret (p & f & Hlen & [_ _ _ (d & Hd & Hp & Hf & Hk)])];
      destruct (for_each event_batch body w1) as [[[] | e] w2]
  end; cbn [fst snd] in *; [|discriminate].
  cbn [trace set_trace] in Hd.
  exists ([SpanStart "process_event_batch";
           SetAttribute "process_event_batch" "partition.id"
             (VStr (partition_id partition_context));
           SetAttribute "process_event_batch" "batch.size"
             (VInt (Z.of_nat (length event_batch)))] ++ d).
  destruct w2 as [pr c items lists ttl ts tr n]. cbn [trace] in Hd. subst tr.
  cbn [fst snd trace set_trace set_steps steps processor config cosmos_items
       redis_lists redis_ttl tasks checkpoint_store set_checkpoint_store].
  destruct (net_fault env n) as [e|];
    cbn [fst snd trace set_trace set_steps steps checkpoint_store set_checkpoint_store
         processor config cosmos_items redis_lists redis_ttl tasks];
    rewrite <- !app_assoc; eexists; (split; [reflexivity|]);
    rewrite !count_app, Hp, Hf, Hk; repeat split; try reflexivity; exact Hlen.
Qed.

Lemma checkpoints_on_event_batch partition_context event_batch :
  checkpoints 1 (on_event_batch env partition_context event_batch).
Proof.
  intros w.
  destruct (keeps_on_event_batch env partition_context event_batch w)
    as (p & f & k & [Hp Hc Ht (d & Hd & Hdp & Hdf & Hdk)]).
  destruct (on_event_batch_trace partition_context event_batch w)
    as (before & after & Htr & _ & Hb & _ & _ & Ha).
  rewrite Hd in Htr. apply app_inv_head in Htr. subst d.
  exists p, f. constructor; try assumption.
  eexists. split; [exact Hd|]. split; [exact Hdp|]. split; [exact Hdf|].
  rewrite count_app, count_cons, Hb, Ha. reflexivity.
Qed.

Lemma returns_on_error partition_context error :
  returns (on_error partition_context error).
Proof.
  unfold on_error. apply returns_bind; [apply returns_logger | intros _; apply returns_emit].
Qed.

Lemma quiet_on_error partition_context error :
  quiet (on_error partition_context error).
Proof. unfold on_error. quiet. Qed.

(** Over the deliveries of one receive call, [update_checkpoint] is called
    once per batch. *)
Lemma checkpoints_deliveries (ds : list Delivery) :
  let handle d :=
    match d with
    | Batch pc event_batch =>
        try_except (on_event_batch env pc event_batch) (on_error pc)
    | PartitionError pc error => on_error pc error
    end in
  returns (for_each ds handle) /\ checkpoints (batch_count ds) (for_each ds handle).
Proof.
  intros handle.
  assert (Hret : forall d, returns (handle d)).
  { intros [pc event_batch | pc error]; cbn.
    - apply returns_try_except. intros e. apply returns_on_error.
    - apply returns_on_error. }
  assert (Hcp : forall d, checkpoints (if is_batch d then 1 else 0) (handle d)).
  { intros [pc event_batch | pc error]; cbn.
    - apply checkpoints_try_except; [apply checkpoints_on_event_batch|].
      intros e. apply checkpoints_of_quiet, quiet_on_error.
    - apply checkpoints_of_quiet, quiet_on_error. }
  induction ds as [|d ds [IHr IHc]]; cbn [for_each].
  - split; [apply returns_ret | apply checkpoints_of_quiet, quiet_ret].
  - split.
    + apply returns_bind; [apply Hret | intros _; exact IHr].
    + replace (batch_count (d :: ds))
        with ((if is_batch d then 1 else 0) + batch_count ds)
        by (unfold batch_count; cbn; destruct (is_batch d); reflexivity).
      apply checkpoints_bind; [apply Hret | apply Hcp | intros _; exact IHc].
Qed.


End Checkpoints.

(** * The recent-activity cache *)

(** What one write that the cache accepts does to the cache. *)
Lemma cache_event_summary_ok (env : Env) (event_data : json) (event_type : string)
    (w : World) :
  net_fault env (1 + steps w) = None ->
  net_fault env (2 + steps w) = None ->
  net_fault env (3 + steps w) = None ->
  let key := "recent_events:" +:+ event_type in
  let entry :=
    json_dumps env
      (JObj [("timestamp", JStr (utcnow_isoformat env (steps w)));
             ("type", JStr event_type);
             ("data", event_data)]) in
  cache_event_summary env event_data event_type w =
    (Ret tt,
     set_redis_ttl (<[key := 3600%Z]> (redis_ttl w))
       (set_redis_lists
          (<[key := take 100 (entry :: default [] (redis_lists w !! key))]>
             (redis_lists w))
          (set_steps (4 + steps w) w))).
Proof.
  destruct w as [p c items lists ttl ts tr n]. intros H1 H2 H3 key entry.
  exec_in H1. exec_in H2. exec_in H3. subst key entry.
  exec. rewrite H1. exec. rewrite H2. exec. rewrite lookup_insert_eq.
  change (S 99 - 0) with 100. change (drop 0 ?l) with l.
  cbn [take]. rewrite H3. exec. rewrite lookup_insert_eq, insert_insert_eq.
  reflexivity.
Qed.

(** What one write does to the cache, whatever the cache answers.  The three
    commands are sent one after the other; the first that fails ends the
    write, and its error is logged and swallowed. *)
Lemma cache_event_summary_cases (env : Env) (event_data : json) (event_type : string)
    (w : World) :
  let key := "recent_events:" +:+ event_type in
  let entry :=
    json_dumps env
      (JObj [("timestamp", JStr (utcnow_isoformat env (steps w)));
             ("type", JStr event_type);
             ("data", event_data)]) in
  let old := default [] (redis_lists w !! key) in
  let w1 := snd (cache_event_summary env event_data event_type w) in
  fst (cache_event_summary env event_data event_type w) = Ret tt /\
  match net_fault env (1 + steps w), net_fault env (2 + steps w),
        net_fault env (3 + steps w) with
  | None, None, None =>
      redis_lists w1 = <[key := take 100 (entry :: old)]> (redis_lists w) /\
      redis_ttl w1 = <[key := 3600%Z]> (redis_ttl w)
  | None, None, Some _ =>
      redis_lists w1 = <[key := take 100 (entry :: old)]> (redis_lists w) /\
      redis_ttl w1 = redis_ttl w
  | None, Some _, _ =>
      redis_lists w1 = <[key := entry :: old]> (redis_lists w) /\
      redis_ttl w1 = redis_ttl w
  | Some _, _, _ =>
      redis_lists w1 = redis_lists w /\ redis_ttl w1 = redis_ttl w
  end.
Proof.
  destruct w as [p c items lists ttl ts tr n]. intros key entry old w1.
  subst key entry old w1. exec. cbn [Nat.add].
  destruct (net_fault env (S n)) as [e1|]; exec; [repeat split|].
  destruct (net_fault env (S (S n))) as [e2|]; exec; [repeat split|].
  rewrite lookup_insert_eq.
  change (S 99 - 0) with 100. change (drop 0 ?l) with l. cbn [take].
  destruct (net_fault env (S (S (S n)))) as [e3|]; exec;
    rewrite ?lookup_insert_eq, insert_insert_eq; repeat split.
Qed.

Section CacheBound.

Variable env : Env.
Hypothesis cache_reachable : forall n, net_fault env n = None.

Lemma cache_write_step (event_data : json) (event_type : string) (w : World) :
  let w1 := snd (cache_event_summary env event_data event_type w) in
  fst (cache_event_summary env event_data event_type w) = Ret tt /\
  list_fresh ("recent_events:" +:+ event_type) w1 /\
  (forall key, list_fresh key w -> list_fresh key w1) /\
  (lists_bounded w -> lists_bounded w1).
Proof.
  rewrite cache_event_summary_ok by apply cache_reachable.
  destruct w as [p c items lists ttl ts tr n cp].
  cbn [fst snd redis_lists redis_ttl set_redis_ttl set_redis_lists set_steps steps
       processor config cosmos_items tasks trace checkpoint_store].
  set (key := "recent_events:" +:+ event_type).
  set (l1 := take 100 _).
  assert (Hlen : length l1 <= 100) by (subst l1; rewrite length_take; lia).
  assert (Hfresh : list_fresh key
            (mkWorld p c items (<[key := l1]> lists) (<[key := 3600%Z]> ttl) ts tr
                     (4 + n) cp)).
  { exists l1. cbn. rewrite !lookup_insert_eq. auto. }
  split; [reflexivity|]. split; [exact Hfresh|]. split.
  - intros k Hk. destruct (decide (k = key)) as [-> | Hne]; [exact Hfresh|].
    destruct Hk as (l & Hl & Hle & Httl). exists l. cbn in *.
    rewrite !lookup_insert_ne by congruence. auto.
  - intros Hb k l. cbn. destruct (decide (k = key)) as [-> | Hne].
    + rewrite lookup_insert_eq. intros [= <-]. exact Hlen.
    + rewrite lookup_insert_ne by congruence. apply Hb.
Qed.

Lemma cache_writes_bounded (writes : list (json * string)) (w : World) :
  let body := fun wr : json * string => cache_event_summary env (fst wr) (snd wr) in
  let w' := snd (for_each writes body w) in
  (forall event_data event_type,
     In (event_data, event_type) writes -> list_fresh ("recent_events:" +:+ event_type) w') /\
  (forall key, list_fresh key w -> list_fresh key w') /\
  (lists_bounded w -> lists_bounded w').
Proof.
  revert w. induction writes as [|[d t] writes IH]; intros w; cbn zeta.
  - split; [intros ? ? []|]. split; auto.
  - cbn [for_each]. unfold bind.
    destruct (cache_write_step d t w) as (Hret & Hnew & Hkeep & Hb).
    cbn [fst snd] in *.
    destruct (cache_event_summary env d t w) as [[[] | e] w1]; cbn [fst snd] in *;
      [|discriminate].
    destruct (IH w1) as (Hin' & Hkeep' & Hb'). cbn zeta in *.
    split; [|split].
    + intros d' t' [[= <- <-] | Hin]; [apply Hkeep', Hnew | exact (Hin' d' t' Hin)].
    + intros k Hk. apply Hkeep', Hkeep, Hk.
    + intros H. apply Hb', Hb, H.
Qed.

End CacheBound.

(** The sample cache is full, not over-full. *)
Lemma full_cache_world_bounded : lists_bounded full_cache_world.
Proof.
  intros key l Hl. cbn [full_cache_world redis_lists] in Hl.
  apply lookup_singleton_Some in Hl as [_ <-]. rewrite length_replicate. lia.
Qed.


(** * The idempotent store *)

(** C1: for an event body that carries an OrderId, a write that the store
    accepts puts the document under the id "{event_type}_{OrderId}", which
    depends on nothing but the event type and the OrderId; every other
    document is left alone.  Delivering the same event again, at any later
    moment, writes under the same id: the redelivery replaces the document
    and the store holds as many documents as before. *)
Theorem store_processed_event_idempotent
    (env : Env) (kvs : list (string * json)) (order_id : json)
    (event_type : string) (w : World) :
  assoc_get "OrderId" kvs = Some order_id ->
  net_fault env (2 + steps w) = None ->
  let document_id := event_type +:+ "_" +:+ py_str env order_id in
  let document t := mkDocument document_id event_type (JObj kvs) t "event-processor" in
  let w1 := snd (store_processed_event env (JObj kvs) event_type w) in
  fst (store_processed_event env (JObj kvs) event_type w) = Ret tt /\
  cosmos_items w1 =
    <[document_id := document (utcnow_isoformat env (1 + steps w))]> (cosmos_items w) /\
  forall w2 : World,
    cosmos_items w2 = cosmos_items w1 ->
    net_fault env (2 + steps w2) = None ->
    let w3 := snd (store_processed_event env (JObj kvs) event_type w2) in
    cosmos_items w3 !! document_id
      = Some (document (utcnow_isoformat env (1 + steps w2))) /\
    dom (cosmos_items w3) = dom (cosmos_items w1) /\
    size (cosmos_items w3) = size (cosmos_items w1).
Proof.
  intros Hid Hok document_id document w1.
  assert (Hrun : forall w0 : World,
             net_fault env (2 + steps w0) = None ->
             fst (store_processed_event env (JObj kvs) event_type w0) = Ret tt /\
             cosmos_items (snd (store_processed_event env (JObj kvs) event_type w0)) =
               <[document_id := document (utcnow_isoformat env (1 + steps w0))]>
                 (cosmos_items w0)).
  { intros [p c items lists ttl ts tr n] H0. exec_in H0.
    exec. rewrite Hid. exec. rewrite H0. exec. split; reflexivity. }
  destruct (Hrun w Hok) as [Hret Hitems]. fold w1 in Hitems.
  split; [exact Hret|]. split; [exact Hitems|].
  intros w2 Hsame Hok2 w3.
  destruct (Hrun w2 Hok2) as [_ Hitems2]. fold w3 in Hitems2.
  assert (Hin : is_Some (cosmos_items w1 !! document_id)).
  { rewrite Hitems, lookup_insert_eq. eauto. }
  rewrite Hitems2, Hsame. split; [apply lookup_insert_eq|].
  assert (Hdom : dom (<[document_id := document (utcnow_isoformat env (1 + steps w2))]>
                        (cosmos_items w1)) = dom (cosmos_items w1)).
  { rewrite dom_insert_L. apply elem_of_dom in Hin.
    apply (subseteq_union_1_L (C := gset string)), singleton_subseteq_l, Hin. }
  split; [exact Hdom|].
  rewrite <- !size_dom, Hdom. reflexivity.
Qed.

(** C1 at work: the sample order event, stored twice. *)
Lemma store_processed_event_idempotent_witness :
  let env := calm_env [] None in
  let w := sample_world ready_processor sample_config in
  let w1 := snd (store_processed_event env (JObj order_body) "OrderCreated" w) in
  let w3 := snd (store_processed_event env (JObj order_body) "OrderCreated" w1) in
  assoc_get "OrderId" order_body = Some (JStr "O1") /\
  net_fault env (2 + steps w) = None /\
  cosmos_items w1 =
    <["OrderCreated_O1" :=
        mkDocument "OrderCreated_O1" "OrderCreated" (JObj order_body)
          (utcnow_isoformat env (1 + steps w)) "event-processor"]> (cosmos_items w) /\
  dom (cosmos_items w3) = dom (cosmos_items w1) /\
  size (cosmos_items w3) = size (cosmos_items w1).
Proof.
  intros env w w1 w3.
  destruct (store_processed_event_idempotent env order_body (JStr "O1")
              "OrderCreated" w eq_refl eq_refl) as (_ & Hitems & Hagain).
  destruct (Hagain w1 eq_refl eq_refl) as (_ & Hdom & Hsize).
  split; [reflexivity|]. split; [reflexivity|]. split; [exact Hitems|].
  split; [exact Hdom | exact Hsize].
Defined.

(** C4: when the upsert fails and the text of the error contains both
    "Conflict" and "409", [store_processed_event] returns normally: it logs
    one record at warning level ("Duplicate event already processed"), marks
    the span with [cosmos.duplicate_event = true], records no exception, logs
    no error, and leaves the store as it was. *)
Theorem store_conflict_is_success
    (env : Env) (kvs : list (string * json)) (event_type : string)
    (e : Exn) (w : World) :
  net_fault env (2 + steps w) = Some e ->
  str_in "Conflict" (exn_str e) = true ->
  str_in "409" (exn_str e) = true ->
  let span := "store_processed_event" in
  let order_id :=
    default (JStr ("unknown_" +:+ pretty (py_int (float_mul (time_time env (steps w)) 1000))))
            (assoc_get "OrderId" kvs) in
  store_processed_event env (JObj kvs) event_type w =
    (Ret tt,
     set_steps (3 + steps w)
       (set_trace
          (trace w ++
           [SpanStart span;
            Log LWarning "Duplicate event already processed (concurrent partition)"
              [("document_id", VStr (event_type +:+ "_" +:+ py_str env order_id));
               ("event_type", VStr event_type);
               ("order_id", VPy order_id)];
            SetAttribute span "cosmos.duplicate_event" (VBool true);
            SpanEnd span]) w)).
Proof.
  intros Hfault Hconflict H409 span order_id. subst span order_id.
  destruct w as [p c items lists ttl ts tr n]. exec_in Hfault.
  exec. rewrite Hfault. exec. rewrite Hconflict, H409. exec.
  rewrite <- !app_assoc. reflexivity.
Qed.

(** C4 at work: the store answers 409 Conflict. *)
Lemma store_conflict_is_success_witness :
  let e := PyExc "CosmosResourceExistsError"
             "(Conflict) Entity with the specified id already exists. Status code: 409" in
  let env := failing_env e in
  let w := sample_world ready_processor sample_config in
  net_fault env (2 + steps w) = Some e /\
  str_in "Conflict" (exn_str e) = true /\
  str_in "409" (exn_str e) = true /\
  fst (store_processed_event env (JObj order_body) "OrderCreated" w) = Ret tt /\
  cosmos_items (snd (store_processed_event env (JObj order_body) "OrderCreated" w)) =
    cosmos_items w.
Proof.
  intros e env w.
  pose proof (store_conflict_is_success env order_body "OrderCreated" e w
                eq_refl eq_refl eq_refl) as H.
  cbv zeta in H.
  split; [reflexivity|]. split; [reflexivity|]. split; [reflexivity|].
  rewrite H. split; reflexivity.
Defined.

(** C5: a failure of the store write that is not a conflict, and a failure
    of the cache write, stay inside the write path.  The store write returns
    normally after recording the exception on its span and logging an error;
    the cache write returns normally after logging an error; neither changes
    what is stored.  Neither write path raises on any input, whatever the
    surroundings answer.  So an event that decoded to a dict is, with fault
    injection off, counted as processed and not as failed, and
    [process_single_event] returns normally, leaving the batch to go on. *)
Theorem persistence_failures_do_not_fail_the_event
    (env : Env) (event : EventData) (partition_context : PartitionContext)
    (kvs : list (string * json)) (event_type : string)
    (e_store e_cache : Exn) (w : World) :
  net_fault env (2 + steps w) = Some e_store ->
  str_in "Conflict" (exn_str e_store) && str_in "409" (exn_str e_store) = false ->
  net_fault env (1 + steps w) = Some e_cache ->
  json_loads env (body_as_str event) = inr (JObj kvs) ->
  injection_off w ->
  (store_processed_event env (JObj kvs) event_type w =
     (Ret tt,
      set_steps (3 + steps w)
        (set_trace
           (trace w ++
            [SpanStart "store_processed_event";
             RecordException "store_processed_event" e_store;
             Log LError "Failed to store event in Cosmos DB"
               [("error", VStr (exn_str e_store)); ("event_type", VStr event_type)];
             SpanEnd "store_processed_event"]) w))) /\
  (cache_event_summary env (JObj kvs) event_type w =
     (Ret tt,
      set_steps (2 + steps w)
        (set_trace
           (trace w ++
            [Log LError "Failed to cache event summary"
               [("error", VStr (exn_str e_cache))]]) w))) /\
  (forall event_data w0,
     fst (store_processed_event env event_data event_type w0) = Ret tt /\
     fst (cache_event_summary env event_data event_type w0) = Ret tt) /\
  fst (process_single_event env event partition_context w) = Ret tt /\
  ext 1 0 0 w (snd (process_single_event env event partition_context w)).
Proof.
  intros Hstore Hother Hcache Hloads Hoff.
  split; [|split; [|split]].
  - destruct w as [p c items lists ttl ts tr n]. exec_in Hstore.
    exec. rewrite Hstore. exec.
    apply andb_false_iff in Hother.
    destruct (str_in "Conflict" (exn_str e_store));
      [destruct (str_in "409" (exn_str e_store))|].
    + destruct Hother; discriminate.
    + exec. rewrite <- !app_assoc. reflexivity.
    + exec. rewrite <- !app_assoc. reflexivity.
  - destruct w as [p c items lists ttl ts tr n]. exec_in Hcache.
    exec. rewrite Hcache. exec. reflexivity.
  - intros event_data w0. split.
    + destruct (returns_store_processed_event env event_data event_type w0) as [[] H].
      exact H.
    + destruct (returns_cache_event_summary env event_data event_type w0) as [[] H].
      exact H.
  - apply (processed_process_single_event env event partition_context kvs Hloads w Hoff).
Qed.

(** C5 at work: the store and the cache are both unreachable. *)
Lemma persistence_failures_do_not_fail_the_event_witness :
  let e := PyExc "ServiceRequestError" "connection refused" in
  let env := failing_env e in
  let pc := mkPartitionContext "0" in
  let w := sample_world ready_processor uninjected_config in
  net_fault env (2 + steps w) = Some e /\
  str_in "Conflict" (exn_str e) && str_in "409" (exn_str e) = false /\
  net_fault env (1 + steps w) = Some e /\
  json_loads env (body_as_str order_event) = inr (JObj order_body) /\
  injection_off w /\
  fst (process_single_event env order_event pc w) = Ret tt /\
  ext 1 0 0 w (snd (process_single_event env order_event pc w)).
Proof.
  intros e env pc w.
  destruct (persistence_failures_do_not_fail_the_event env order_event pc order_body
              "OrderCreated" e e w eq_refl eq_refl eq_refl eq_refl eq_refl)
    as (_ & _ & _ & Hret & Hext).
  do 5 (split; [reflexivity|]). split; [exact Hret | exact Hext].
Defined.

(** C8: one write of [cache_event_summary] sends three separate commands,
    LPUSH, LTRIM 0 99 and EXPIRE 3600, and swallows the failure of any of
    them.  When all three go through, the new entry is at the head of the
    list under "recent_events:{event_type}", the list is cut to its first 100
    entries and the key expires in 3600 seconds.  When LTRIM fails after
    LPUSH went through, the list keeps the pushed entry uncut and the expiry
    is not reset; when only EXPIRE fails, the list is cut and the expiry is
    not reset; when LPUSH fails, nothing changes.  In every case the write
    returns normally.  Against a cache that answers every command, after any
    number of writes, for any mix of event types and from any initial cache
    content, the list of every event type written holds at most 100 entries
    and its key expires in 3600 seconds; and if no list held more than 100
    entries at the start, none does at the end. *)
Theorem recent_events_list_bounded
    (env : Env) (writes : list (json * string)) (w : World) :
  let body := fun wr : json * string => cache_event_summary env (fst wr) (snd wr) in
  let w' := snd (for_each writes body w) in
  (forall event_data event_type,
     let key := "recent_events:" +:+ event_type in
     let entry :=
       json_dumps env
         (JObj [("timestamp", JStr (utcnow_isoformat env (steps w)));
                ("type", JStr event_type);
                ("data", event_data)]) in
     let old := default [] (redis_lists w !! key) in
     let w1 := snd (cache_event_summary env event_data event_type w) in
     fst (cache_event_summary env event_data event_type w) = Ret tt /\
     match net_fault env (1 + steps w), net_fault env (2 + steps w),
           net_fault env (3 + steps w) with
     | None, None, None =>
         redis_lists w1 !! key = Some (take 100 (entry :: old)) /\
         redis_ttl w1 !! key = Some 3600%Z
     | None, None, Some _ =>
         redis_lists w1 !! key = Some (take 100 (entry :: old)) /\
         redis_ttl w1 !! key = redis_ttl w !! key
     | None, Some _, _ =>
         redis_lists w1 !! key = Some (entry :: old) /\
         redis_ttl w1 !! key = redis_ttl w !! key
     | Some _, _, _ =>
         redis_lists w1 !! key = redis_lists w !! key /\
         redis_ttl w1 !! key = redis_ttl w !! key
     end) /\
  ((forall n, net_fault env n = None) ->
   (forall event_data event_type,
      In (event_data, event_type) writes ->
      list_fresh ("recent_events:" +:+ event_type) w') /\
   (lists_bounded w -> lists_bounded w')).
Proof.
  intros body w'. split.
  - intros event_data event_type key entry old w1.
    destruct (cache_event_summary_cases env event_data event_type w) as [Hret Hcase].
    split; [exact Hret|]. fold key entry old w1 in Hcase.
    destruct (net_fault env (1 + steps w));
      [|destruct (net_fault env (2 + steps w));
        [|destruct (net_fault env (3 + steps w))]];
      destruct Hcase as [-> ->]; rewrite ?lookup_insert_eq; split; reflexivity.
  - intros Hok. destruct (cache_writes_bounded env Hok writes w) as (Hin & _ & Hb).
    split; [exact Hin | exact Hb].
Qed.

(** C8 at work: writes into a cache whose list for created orders is already
    full.  One write leaves it at 100 entries, the new one at the head, and
    resets the expiry. *)
Lemma recent_events_list_bounded_witness :
  let env := calm_env [] None in
  let writes := [(JObj order_body, "OrderCreated"); (JObj order_body, "OrderCreated");
                 (JObj [], "Unknown")] in
  let w := full_cache_world in
  let w1 := snd (cache_event_summary env (JObj order_body) "OrderCreated" w) in
  let w' := snd (for_each writes
                   (fun wr => cache_event_summary env (fst wr) (snd wr)) w) in
  lists_bounded w /\
  redis_lists w1 !! "recent_events:OrderCreated" =
    Some ("{...}" :: replicate 99 "old") /\
  redis_ttl w1 !! "recent_events:OrderCreated" = Some 3600%Z /\
  list_fresh "recent_events:OrderCreated" w' /\
  list_fresh "recent_events:Unknown" w' /\
  lists_bounded w'.
Proof.
  intros env writes w w1 w'.
  destruct (recent_events_list_bounded env writes w) as [Hone Hmany].
  destruct (Hone (JObj order_body) "OrderCreated") as [_ [Hlist Httl]].
  destruct (Hmany (fun n => eq_refl)) as [Hin Hb].
  split; [exact full_cache_world_bounded|].
  split.
  { etransitivity; [exact Hlist|].
    unfold w, full_cache_world. cbn [redis_lists]. rewrite lookup_singleton_eq.
    reflexivity. }
  split; [exact Httl|].
  split; [apply (Hin (JObj order_body) "OrderCreated"); left; reflexivity|].
  split; [apply (Hin (JObj []) "Unknown"); right; right; left; reflexivity|].
  apply Hb, full_cache_world_bounded.
Defined.

(** C8, as the claim states it, fails: LPUSH goes through, LTRIM fails.  The
    write returns normally, the list that held 100 entries now holds 101, and
    the expiry is still the old one. *)
Lemma recent_events_list_overflows :
  let e := PyExc "ConnectionError" "connection reset by peer" in
  let env := one_fault_env 2 e in
  let w := full_cache_world in
  let r := cache_event_summary env (JObj order_body) "OrderCreated" w in
  lists_bounded w /\
  fst r = Ret tt /\
  redis_lists (snd r) !! "recent_events:OrderCreated" =
    Some ("{...}" :: replicate 100 "old") /\
  redis_ttl (snd r) !! "recent_events:OrderCreated" = Some 1800%Z /\
  ~ lists_bounded (snd r).
Proof.
  intros e env w r.
  destruct (cache_event_summary_cases env (JObj order_body) "OrderCreated" w)
    as [Hret [Hlists Httl]].
  fold r in Hret, Hlists, Httl.
  assert (Hlist : redis_lists (snd r) !! "recent_events:OrderCreated" =
                    Some ("{...}" :: replicate 100 "old")).
  { rewrite Hlists, lookup_insert_eq. unfold w, full_cache_world. cbn [redis_lists].
    rewrite lookup_singleton_eq. reflexivity. }
  split; [exact full_cache_world_bounded|]. split; [exact Hret|].
  split; [exact Hlist|].
  split; [rewrite Httl; apply lookup_singleton_eq|].
  intros Hb. specialize (Hb _ _ Hlist). cbn in Hb. lia.
Qed.

(** * The intake loop *)

(** C3: an event whose payload does not decode fails alone.  Wherever it
    stands in the batch, [process_single_event] returns normally on it,
    having recorded the exception on the span, set the span status to ERROR,
    counted one processing error and logged the failure, and having touched
    neither the store nor the cache; the loop over the batch then goes on with
    the events that follow, and the loop as a whole returns normally. *)
Theorem malformed_event_fails_alone
    (env : Env) (event : EventData) (partition_context : PartitionContext)
    (e : Exn) (before after : list EventData) (w0 : World) :
  json_loads env (body_as_str event) = inl e ->
  let body := fun ev => process_single_event env ev partition_context in
  let w := snd (for_each before body w0) in
  let span := "process_single_event" in
  let processing_time := (time_time env (1 + steps w) - time_time env (steps w))%Q in
  let w' :=
    set_steps (2 + steps w)
      (set_trace
         (trace w ++
          [SpanStart span;
           RecordException span e;
           SetStatus span StERROR (Some (exn_str e));
           CounterAdd "event_processing_errors_total" 1
             [("error_type", "processing_error")];
           Log LError "Event processing failed"
             [("error", VStr (exn_str e));
              ("processing_time_ms", VNum (processing_time * 1000)%Q)];
           SpanEnd span]) w) in
  process_single_event env event partition_context w = (Ret tt, w') /\
  for_each (before ++ event :: after) body w0 = for_each after body w' /\
  fst (for_each (before ++ event :: after) body w0) = Ret tt.
Proof.
  intros Hbad body w span processing_time w'.
  assert (Hone : process_single_event env event partition_context w = (Ret tt, w')).
  { subst w' processing_time span. generalize w. clear w.
    intros [p c items lists ttl ts tr n].
    exec. rewrite Hbad. exec. rewrite <- !app_assoc. reflexivity. }
  assert (Hpre : fst (for_each before body w0) = Ret tt).
  { apply for_each_settled. intros ev. apply settled_process_single_event. }
  assert (Hloop : for_each (before ++ event :: after) body w0 = for_each after body w').
  { rewrite for_each_app by exact Hpre. fold w. simpl.
    unfold bind. unfold body at 1. rewrite Hone. reflexivity. }
  split; [exact Hone|]. split; [exact Hloop|].
  rewrite Hloop. apply for_each_settled. intros ev. apply settled_process_single_event.
Qed.

(** C3 at work: a payload that is not JSON between two good events. *)
Lemma malformed_event_fails_alone_witness :
  let env := calm_env [] None in
  let pc := mkPartitionContext "0" in
  let e := PyExc "JSONDecodeError" "Expecting value: line 1 column 1 (char 0)" in
  let body := fun ev => process_single_event env ev pc in
  let w0 := sample_world ready_processor sample_config in
  let w := snd (for_each [order_event] body w0) in
  json_loads env (body_as_str malformed_event) = inl e /\
  fst (process_single_event env malformed_event pc w) = Ret tt /\
  fst (for_each ([order_event] ++ malformed_event :: [order_event]) body w0) = Ret tt.
Proof.
  intros env pc e body w0 w.
  destruct (malformed_event_fails_alone env malformed_event pc e
              [order_event] [order_event] w0 eq_refl) as (Hone & _ & Hall).
  split; [reflexivity|]. split; [|exact Hall].
  fold body w in Hone. rewrite Hone. reflexivity.
Defined.

(** C6, as the code has it: [process_events] always returns normally, also
    when the receive call ends with a fatal error; when the consumer client
    is initialised it leaves the processor object with [running = true] and
    otherwise unchanged, since [running] is set on entry and no path clears
    it; when the consumer client is absent it returns at once and leaves the
    processor object, [running] included, as it found it. *)
Theorem process_events_running_flag (env : Env) (w : World) :
  fst (process_events env w) = Ret tt /\
  processor (snd (process_events env w)) =
    if is_some (consumer_client (processor w))
    then set_running true (processor w)
    else processor w.
Proof. apply process_events_processor. Qed.

(** C6, as the claim states it, fails: after a run of [process_events] that
    ends normally, and after one whose receive call ends with a fatal error,
    [running] is still true. *)
Lemma process_events_exit_leaves_running_true :
  let w := sample_world ready_processor sample_config in
  let fatal := PyExc "EventHubError" "connection lost" in
  (fst (process_events (calm_env [] None) w) = Ret tt /\
   running (processor (snd (process_events (calm_env [] None) w))) = true) /\
  (fst (process_events (calm_env [] (Some fatal)) w) = Ret tt /\
   running (processor (snd (process_events (calm_env [] (Some fatal)) w))) = true).
Proof. vm_compute. repeat split; reflexivity. Qed.

(** * The supervisor *)

(** C7: while [running] is true, a call to start-processing is rejected with
    the HTTP error "Event processing already running" (status 400) and
    changes nothing: [running] stays true and no task is created.  While
    [running] is false, the call returns its message and hands exactly one
    new task to the event loop, and that task is the intake loop
    [process_events]; nothing else changes.  Once that loop has run with the
    consumer client initialised, a second call is rejected. *)
Theorem start_processing_guard (env : Env) (w : World) :
  (running (processor w) = true ->
     start_processing w =
       (Raise (HTTPException 400 "Event processing already running"), w)) /\
  (running (processor w) = false ->
     start_processing w =
       (Ret "Event processing started", set_tasks (tasks w ++ [ProcessEvents]) w) /\
     run_coroutine env ProcessEvents = process_events env /\
     (is_some (consumer_client (processor w)) = true ->
      let w1 := snd (start_processing w) in
      let w2 := snd (run_coroutine env ProcessEvents w1) in
      start_processing w2 =
        (Raise (HTTPException 400 "Event processing already running"), w2))).
Proof.
  assert (Hreject : forall w0, running (processor w0) = true ->
            start_processing w0 =
              (Raise (HTTPException 400 "Event processing already running"), w0)).
  { intros w0 Hrun. unfold start_processing, bind, gets, raise. rewrite Hrun. reflexivity. }
  split; [apply Hreject|]. intros Hidle.
  assert (Hstart : start_processing w =
            (Ret "Event processing started", set_tasks (tasks w ++ [ProcessEvents]) w)).
  { unfold start_processing, bind, gets, create_task, modify, ret.
    rewrite Hidle. reflexivity. }
  split; [exact Hstart|]. split; [reflexivity|].
  intros Hclient w1 w2. apply Hreject. subst w2 w1. rewrite Hstart.
  cbn [snd run_coroutine].
  destruct (process_events_processor env (set_tasks (tasks w ++ [ProcessEvents]) w))
    as [_ Hproc].
  rewrite Hproc. destruct w as [p c items lists ttl ts tr n].
  cbn [processor set_tasks] in *. rewrite Hclient. reflexivity.
Qed.

(** C7 at work: a processor that runs, and one that does not. *)
Lemma start_processing_guard_witness :
  let env := calm_env [] None in
  let started := sample_world (set_running true ready_processor) sample_config in
  let idle := sample_world ready_processor sample_config in
  let later := snd (run_coroutine env ProcessEvents (snd (start_processing idle))) in
  running (processor started) = true /\
  running (processor idle) = false /\
  is_some (consumer_client (processor idle)) = true /\
  start_processing started =
    (Raise (HTTPException 400 "Event processing already running"), started) /\
  tasks (snd (start_processing idle)) = [ProcessEvents] /\
  fst (start_processing later) =
    Raise (HTTPException 400 "Event processing already running").
Proof.
  intros env started idle later.
  destruct (start_processing_guard env started) as [Hrej _].
  destruct (start_processing_guard env idle) as [_ Hacc].
  destruct (Hacc eq_refl) as (Hrun & _ & Htwice).
  do 3 (split; [reflexivity|]). split; [exact (Hrej eq_refl)|].
  split; [rewrite Hrun; reflexivity|].
  specialize (Htwice eq_refl). cbv zeta in Htwice. fold later in Htwice.
  rewrite Htwice. reflexivity.
Defined.

(** * Fault injection *)

(** C9: once the policy has been set with [enabled = false], whatever the
    two probabilities, a call to [maybe_inject_failure] in any later world
    that still has this configuration returns normally and leaves the world
    exactly as it was: no random draw is taken, no delay is injected, nothing
    is logged and no error is raised, for every operation name and every
    surroundings. *)
Theorem injection_disabled_is_noop
    (env : Env) (lp ep : Q) (w w2 : World) (operation : string) :
  config w2 =
    config (snd (configure_failure_injection env
                   (mkFailureInjectionConfig false lp ep) w)) ->
  maybe_inject_failure env operation w2 = (Ret tt, w2).
Proof.
  intros Hcfg. apply maybe_inject_failure_off.
  unfold injection_off. rewrite Hcfg. destruct w. reflexivity.
Qed.

(** C9 at work: the policy is switched off, then an event is processed. *)
Lemma injection_disabled_is_noop_witness :
  let env := calm_env [] None in
  let w := sample_world ready_processor sample_config in
  let w1 := snd (configure_failure_injection env
                   (mkFailureInjectionConfig false 1 1) w) in
  let w2 := snd (cache_event_summary env (JObj order_body) "OrderCreated" w1) in
  config w2 = config w1 /\
  maybe_inject_failure env "process_event" w2 = (Ret tt, w2).
Proof.
  intros env w w1 w2.
  split; [reflexivity|].
  apply (injection_disabled_is_noop env 1 1 w w2 "process_event"). reflexivity.
Defined.

(** * Start-up *)

(** C10: start-up needs the cache and nothing else.  [initialize] raises the
    error of the Redis constructor or of the ping when either fails.  When it
    succeeds, the document-store container exists exactly when both the
    endpoint and the key are configured, and the stream clients exist exactly
    when the connection string is configured.  Its success does not hang on
    any network call other than the ping: with the cache reachable and the
    client constructors accepting their configuration it succeeds.  With the
    document store and the stream not configured, start-up succeeds and
    creates the intake task, and [process_events] then returns at once, without
    error, logging that the consumer client is missing and leaving [running]
    false. *)
Theorem initialize_requires_only_cache (env : Env) (w : World) :
  processor w = fresh_processor ->
  let cfg := config w in
  let cosmos_configured := truthy (COSMOS_ENDPOINT cfg) && truthy (COSMOS_KEY cfg) in
  let eventhub_configured := truthy (EVENT_HUB_CONNECTION_STRING cfg) in
  (forall e, Redis_from_url_fault env (REDIS_URL cfg) = Some e ->
             fst (initialize env w) = Raise e) /\
  (forall e, Redis_from_url_fault env (REDIS_URL cfg) = None ->
             net_fault env (steps w) = Some e ->
             fst (initialize env w) = Raise e) /\
  (fst (initialize env w) = Ret tt ->
     let p := processor (snd (initialize env w)) in
     redis_client p = Some (REDIS_URL cfg) /\
     is_some (cosmos_container p) = cosmos_configured /\
     is_some (consumer_client p) = eventhub_configured /\
     is_some (producer_client p) = eventhub_configured) /\
  (Redis_from_url_fault env (REDIS_URL cfg) = None ->
   net_fault env (steps w) = None ->
   (cosmos_configured = true ->
      CosmosClient_fault env (COSMOS_ENDPOINT cfg) (COSMOS_KEY cfg) = None) ->
   (eventhub_configured = true ->
      EventHub_from_connection_string_fault env (EVENT_HUB_CONNECTION_STRING cfg) = None) ->
   fst (initialize env w) = Ret tt) /\
  (Redis_from_url_fault env (REDIS_URL cfg) = None ->
   net_fault env (steps w) = None ->
   cosmos_configured = false ->
   eventhub_configured = false ->
   fst (startup_event env w) = Ret tt /\
   let w1 := snd (startup_event env w) in
   cosmos_container (processor w1) = None /\
   consumer_client (processor w1) = None /\
   tasks w1 = tasks w ++ [ProcessEvents] /\
   process_events env w1 =
     (Ret tt,
      set_trace
        (trace w1 ++ [Log LError "Event Hub consumer client not initialized" []]) w1) /\
   running (processor (snd (process_events env w1))) = false).
Proof.
  destruct w as [p c items lists ttl ts tr n].
  destruct c as [eh_conn eh_name group endpoint key database container url fi lp ep].
  cbn [processor config steps REDIS_URL COSMOS_ENDPOINT COSMOS_KEY
       EVENT_HUB_CONNECTION_STRING].
  intros ->.
  split; [|split; [|split; [|split]]].
  - intros e Hurl. exec. rewrite Hurl. reflexivity.
  - intros e Hurl Hping. exec. rewrite Hurl. exec. rewrite Hping. reflexivity.
  - exec.
    destruct (Redis_from_url_fault env _); [discriminate|]. exec.
    destruct (net_fault env n); [discriminate|]. exec.
    destruct (truthy endpoint); [destruct (truthy key)|]; exec;
      try (destruct (CosmosClient_fault env _ _); [discriminate|]; exec);
      (destruct (truthy _); exec;
       [destruct (EventHub_from_connection_string_fault env _); [discriminate|]; exec|]);
      intros _; repeat split.
  - intros Hurl Hping Hcosmos Heh. revert Hcosmos Heh. exec. rewrite Hurl. exec.
    rewrite Hping. exec.
    destruct (truthy endpoint); [destruct (truthy key)|]; exec;
      intros Hcosmos Heh; try rewrite (Hcosmos eq_refl); exec;
      (destruct (truthy _); exec; [rewrite (Heh eq_refl); exec|]); reflexivity.
  - intros Hurl Hping Hcosmos Heh. revert Hcosmos Heh. exec. rewrite Hurl. exec.
    rewrite Hping. exec.
    destruct (truthy endpoint); [destruct (truthy key)|]; exec;
      intros Hcosmos Heh; try discriminate;
      (destruct (truthy _); exec; [discriminate|]); repeat split.
Qed.

(** C10 at work: only the cache is configured; then the cache is down. *)
Lemma initialize_requires_only_cache_witness :
  let env := calm_env [] None in
  let e := PyExc "ConnectionError" "Error 111 connecting to localhost:6379." in
  let w := sample_world fresh_processor bare_config in
  let w1 := snd (startup_event env w) in
  processor w = fresh_processor /\
  fst (initialize (failing_env e) w) = Raise e /\
  fst (startup_event env w) = Ret tt /\
  consumer_client (processor w1) = None /\
  fst (process_events env w1) = Ret tt /\
  running (processor (snd (process_events env w1))) = false.
Proof.
  intros env e w w1.
  destruct (initialize_requires_only_cache (failing_env e) w eq_refl)
    as (_ & Hping & _).
  destruct (initialize_requires_only_cache env w eq_refl)
    as (_ & _ & _ & _ & Hbare).
  destruct (Hbare eq_refl eq_refl eq_refl eq_refl)
    as (Hstart & _ & Hnone & _ & Hloop & Hrun).
  split; [reflexivity|]. split; [exact (Hping e eq_refl eq_refl)|].
  split; [exact Hstart|]. split; [exact Hnone|].
  split; [|exact Hrun]. fold w1 in Hloop. rewrite Hloop. reflexivity.
Defined.

(** * Further properties

    What the code shows beyond the claims above: the outcome of an event on
    each path through [process_single_event], what fault injection can do
    when it is switched on, which parts of the world each function leaves
    alone, and how the endpoints and the receive loop behave. *)

(** ** Frames: what a computation leaves alone *)

#[export] Instance stores_untouched_preorder : PreOrder stores_untouched.
Proof.
  split.
  - intros w. repeat split.
  - intros w1 w2 w3 (H1 & H2 & H3) (H1' & H2' & H3'). repeat split; congruence.
Qed.

#[export] Instance cosmos_untouched_preorder : PreOrder cosmos_untouched.
Proof.
  split; [intros w; reflexivity | intros w1 w2 w3 H H'; unfold cosmos_untouched in *; congruence].
Qed.

#[export] Instance redis_untouched_preorder : PreOrder redis_untouched.
Proof.
  split.
  - intros w. split; reflexivity.
  - intros w1 w2 w3 [H1 H2] [H1' H2']. split; congruence.
Qed.

#[export] Instance emits_no_preorder (P : Effect -> bool) : PreOrder (emits_no P).
Proof.
  split.
  - intros w. exists []. rewrite app_nil_r. split; reflexivity.
  - intros w1 w2 w3 (d & Hd & Hc) (d' & Hd' & Hc'). exists (d ++ d').
    rewrite Hd', Hd, app_assoc, count_app, Hc, Hc'. split; reflexivity.
Qed.

Section Stable.

Context (R : World -> World -> Prop) `{!PreOrder R}.

Lemma stable_ret {A : Type} (a : A) : stable R (ret a).
Proof. intros w. reflexivity. Qed.

Lemma stable_raise {A : Type} (e : Exn) : stable R (@raise A e).
Proof. intros w. reflexivity. Qed.

Lemma stable_gets {A : Type} (f : World -> A) : stable R (gets f).
Proof. intros w. reflexivity. Qed.

Lemma stable_bind {A B : Type} (c : M A) (k : A -> M B) :
  stable R c -> (forall a, stable R (k a)) -> stable R (bind c k).
Proof.
  intros Hc Hk w. unfold bind. specialize (Hc w).
  destruct (c w) as [[a | e] w']; simpl in *; [|exact Hc].
  etransitivity; [exact Hc | apply Hk].
Qed.

(** What follows a computation that always raises does not matter. *)
Lemma stable_bind_raises {A B : Type} (c : M A) (k : A -> M B) :
  stable R c -> raises c -> stable R (bind c k).
Proof.
  intros Hc Hr w. unfold bind. specialize (Hc w). destruct (Hr w) as [e He].
  destruct (c w) as [[a | e'] w']; simpl in *; [discriminate | exact Hc].
Qed.

Lemma stable_try_except {A : Type} (c : M A) (h : Exn -> M A) :
  stable R c -> (forall e, stable R (h e)) -> stable R (try_except c h).
Proof.
  intros Hc Hh w. unfold try_except. specialize (Hc w).
  destruct (c w) as [[a | e] w']; simpl in *; [exact Hc|].
  etransitivity; [exact Hc | apply Hh].
Qed.

Lemma stable_when (b : bool) (c : M unit) : stable R c -> stable R (when b c).
Proof. intros Hc. destruct b; [exact Hc | apply stable_ret]. Qed.

Lemma stable_for_each {A : Type} (xs : list A) (body : A -> M unit) :
  (forall x, stable R (body x)) -> stable R (for_each xs body).
Proof.
  intros Hb. induction xs as [|x xs IH]; simpl.
  - apply stable_ret.
  - apply stable_bind; [apply Hb | intros _; exact IH].
Qed.

End Stable.

(** Primitive steps, relation by relation. *)
Lemma emits_no_emit (P : Effect -> bool) (e : Effect) :
  P e = false -> stable (emits_no P) (emit e).
Proof.
  intros HP w. exists [e]. destruct w. split; [reflexivity|].
  rewrite count_cons, HP. reflexivity.
Qed.

Lemma emits_no_same_trace (P : Effect -> bool) (w w' : World) :
  trace w' = trace w -> emits_no P w w'.
Proof. intros H. exists []. rewrite app_nil_r. split; [exact H | reflexivity]. Qed.

(** Close a goal about one primitive step. *)
Ltac stable_prim :=
  let w := fresh "w" in
  intros w; destruct w;
  first [ solve [repeat split]
        | apply emits_no_same_trace; reflexivity ].

Ltac stable_step :=
  match goal with
  | |- forall _, _ => intro
  | |- stable _ (bind _ _) => apply stable_bind; try typeclasses eauto
  | |- stable _ (try_except _ _) => apply stable_try_except; try typeclasses eauto
  | |- stable _ (when _ _) => apply stable_when; try typeclasses eauto
  | |- stable _ (for_each _ _) => apply stable_for_each; try typeclasses eauto
  | |- stable _ (ret _) => apply stable_ret; typeclasses eauto
  | |- stable _ (raise _) => apply stable_raise; typeclasses eauto
  | |- stable _ (gets _) => apply stable_gets; typeclasses eauto
  | |- stable (emits_no _) (emit _) => apply emits_no_emit; reflexivity
  | |- stable _ (match ?x with _ => _ end) => destruct x
  | |- stable _ _ => solve [auto with stable]
  | |- stable _ (emit _) => stable_prim
  | |- stable _ tick => stable_prim
  | |- stable _ (modify _) => stable_prim
  end.

Ltac stable := repeat stable_step.

Create HintDb stable.

(** Whatever only logs, traces, sleeps and draws is stable for every relation
    that ignores the trace and the step counter. *)
Section StableProgram.

Variable env : Env.
Context (R : World -> World -> Prop) `{!PreOrder R}.
Hypothesis R_emit : forall e, stable R (emit e).
Hypothesis R_tick : stable R tick.

Lemma stable_with_span {A : Type} (name : string) (body : M A) :
  stable R body -> stable R (with_span name body).
Proof. intros Hb. unfold with_span. stable. Qed.

Lemma stable_maybe_inject_failure operation :
  stable R (maybe_inject_failure env operation).
Proof.
  unfold maybe_inject_failure, uniform, random, choice, asyncio_sleep, logger. stable.
Qed.

Lemma stable_send_notification customer_id message :
  stable R (send_notification env customer_id message).
Proof.
  unfold send_notification, with_span, uniform, random, asyncio_sleep, logger. stable.
Qed.

Lemma stable_handle_order_created event_data :
  stable R (handle_order_created env event_data).
Proof.
  unfold handle_order_created. apply stable_with_span.
  pose proof stable_send_notification.
  unfold uniform, random, asyncio_sleep, logger, py_get. stable.
Qed.

Lemma stable_handle_order_status_updated event_data :
  stable R (handle_order_status_updated env event_data).
Proof.
  unfold handle_order_status_updated, with_span, uniform, random, asyncio_sleep,
    logger, py_get. stable.
Qed.

Lemma stable_handle_generic_event event_data :
  stable R (handle_generic_event env event_data).
Proof.
  unfold handle_generic_event, with_span, uniform, random, asyncio_sleep, logger,
    py_keys. stable.
Qed.

End StableProgram.

Lemma stores_untouched_emit e : stable stores_untouched (emit e).
Proof. stable_prim. Qed.

Lemma stores_untouched_tick : stable stores_untouched tick.
Proof. stable_prim. Qed.

Lemma cosmos_untouched_emit e : stable cosmos_untouched (emit e).
Proof. intros []. reflexivity. Qed.

Lemma cosmos_untouched_tick : stable cosmos_untouched tick.
Proof. intros []. reflexivity. Qed.

Lemma redis_untouched_emit e : stable redis_untouched (emit e).
Proof. stable_prim. Qed.

Lemma redis_untouched_tick : stable redis_untouched tick.
Proof. stable_prim. Qed.

#[export] Hint Resolve stores_untouched_emit stores_untouched_tick
  cosmos_untouched_emit cosmos_untouched_tick
  redis_untouched_emit redis_untouched_tick : stable.

#[export] Instance docs_kept_preorder : PreOrder docs_kept.
Proof.
  split.
  - intros w. unfold docs_kept. set_solver.
  - intros w1 w2 w3. unfold docs_kept. set_solver.
Qed.

Lemma docs_kept_of_cosmos_untouched {A : Type} (c : M A) :
  stable cosmos_untouched c -> stable docs_kept c.
Proof. intros H w. unfold docs_kept. rewrite (H w). set_solver. Qed.

Lemma docs_kept_emit e : stable docs_kept (emit e).
Proof. apply docs_kept_of_cosmos_untouched, cosmos_untouched_emit. Qed.

Lemma docs_kept_tick : stable docs_kept tick.
Proof. apply docs_kept_of_cosmos_untouched, cosmos_untouched_tick. Qed.

#[export] Hint Resolve docs_kept_emit docs_kept_tick : stable.

(** ** Computations that always raise *)

Lemma raises_raise {A : Type} (e : Exn) : raises (@raise A e).
Proof. intros w. exists e. reflexivity. Qed.

Lemma raises_bind_l {A B : Type} (c : M A) (k : A -> M B) :
  raises c -> raises (bind c k).
Proof.
  intros Hc w. unfold bind. destruct (Hc w) as [e He].
  destruct (c w) as [[a | e'] w']; simpl in *; [discriminate | eauto].
Qed.

Lemma raises_bind_r {A B : Type} (c : M A) (k : A -> M B) :
  (forall a, raises (k a)) -> raises (bind c k).
Proof.
  intros Hk w. unfold bind.
  destruct (c w) as [[a | e] w']; simpl; [apply Hk | eauto].
Qed.

Lemma raises_with_span {A : Type} (name : string) (body : M A) :
  raises body -> raises (with_span name body).
Proof.
  intros Hb w. unfold with_span, bind, try_except, emit, modify, raise.
  destruct (Hb (set_trace (trace w ++ [SpanStart name]) w)) as [e He].
  simpl. destruct (body _) as [[a | e'] w']; simpl in *; [discriminate | eauto].
Qed.

Lemma raises_py_get (v : json) key dflt :
  (forall kvs, v <> JObj kvs) -> raises (py_get v key dflt).
Proof.
  intros Hv. destruct v; try apply raises_raise. exfalso. eapply Hv. reflexivity.
Qed.

Lemma raises_py_keys (v : json) :
  (forall kvs, v <> JObj kvs) -> raises (py_keys v).
Proof.
  intros Hv. destruct v; try apply raises_raise. exfalso. eapply Hv. reflexivity.
Qed.

(** ** Rules for [outcome] *)

Lemma outcome_try_except_raises (c : M unit) (h : Exn -> M unit) :
  counted c -> raises c ->
  (forall e w, fst (h e w) = Ret tt /\ ext 0 1 0 w (snd (h e w))) ->
  outcome 0 1 (try_except c h).
Proof.
  intros Hc Hr Hh w. unfold try_except. specialize (Hc w). destruct (Hr w) as [e He].
  destruct (c w) as [[[] | e'] w']; simpl in *; [discriminate|].
  destruct (Hh e' w') as [Hret Hext]. split; [exact Hret|].
  eapply ext_quiet_l; eauto.
Qed.

Lemma outcome_with_span (p f : nat) (name : string) (c : M unit) :
  outcome p f c -> outcome p f (with_span name c).
Proof.
  intros Hc w. unfold with_span, bind, try_except, emit, modify, ret.
  set (w1 := set_trace (trace w ++ [SpanStart name]) w).
  assert (H1 : ext 0 0 0 w w1) by (apply (quiet_emit (SpanStart name)); reflexivity).
  destruct (Hc w1) as [Hret Hext].
  destruct (c w1) as [[[] | e] w2]; simpl in *; [|discriminate].
  split; [reflexivity|].
  eapply ext_quiet_l; [exact H1|]. eapply ext_quiet_r; [exact Hext|].
  apply (quiet_emit (SpanEnd name)); reflexivity.
Qed.

Lemma outcome_bind {A : Type} (p f : nat) (c : M A) (k : A -> M unit) :
  quiet c -> returns c -> (forall a, outcome p f (k a)) -> outcome p f (bind c k).
Proof.
  intros Hq Hr Hk w. unfold bind. specialize (Hq w). destruct (Hr w) as [a Ha].
  destruct (c w) as [[a' | e] w']; simpl in *; [|discriminate].
  destruct (Hk a' w') as [Hret Hext]. split; [exact Hret|].
  eapply ext_quiet_l; eauto.
Qed.

Section NonObject.

Variable env : Env.
Variable body : json.
Hypothesis not_object : forall kvs, body <> JObj kvs.

(** Whatever the event type, the handler chosen for a payload that is not
    a dict raises. *)
Lemma raises_dispatch (event_type : string) :
  raises (if String.eqb event_type "OrderCreated" then
            handle_order_created env body
          else if String.eqb event_type "OrderStatusUpdated" then
            handle_order_status_updated env body
          else
            handle_generic_event env body).
Proof.
  destruct (String.eqb event_type "OrderCreated");
    [|destruct (String.eqb event_type "OrderStatusUpdated")].
  - apply raises_with_span, raises_bind_l, raises_py_get, not_object.
  - apply raises_with_span, raises_bind_l, raises_py_get, not_object.
  - apply raises_with_span. do 2 (apply raises_bind_r; intros ?).
    apply raises_bind_l, raises_py_keys, not_object.
Qed.

End NonObject.

Section NonObjectEvent.

Variable env : Env.

Lemma stable_dispatch (R : World -> World -> Prop) `{!PreOrder R}
    (R_emit : forall e, stable R (emit e)) (R_tick : stable R tick)
    (event_type : string) (body : json) :
  stable R (if String.eqb event_type "OrderCreated" then
              handle_order_created env body
            else if String.eqb event_type "OrderStatusUpdated" then
              handle_order_status_updated env body
            else
              handle_generic_event env body).
Proof.
  destruct (String.eqb event_type "OrderCreated");
    [|destruct (String.eqb event_type "OrderStatusUpdated")].
  - apply stable_handle_order_created; assumption.
  - apply stable_handle_order_status_updated; assumption.
  - apply stable_handle_generic_event; assumption.
Qed.

Lemma non_object_outcome event partition_context body :
  json_loads env (body_as_str event) = inr body ->
  (forall kvs, body <> JObj kvs) ->
  outcome 0 1 (process_single_event env event partition_context).
Proof.
  intros Hloads Hshape. unfold process_single_event.
  apply outcome_bind; [auto with quiet | auto with quiet | intros start_time].
  apply outcome_with_span, outcome_try_except_raises.
  - repeat (apply counted_bind_quiet; [solve [quiet] | intros]).
    apply counted_emit; try reflexivity; quiet.
  - rewrite Hloads, bind_ret_l.
    do 7 (apply raises_bind_r; intros ?).
    apply raises_bind_l, raises_dispatch, Hshape.
  - intros e [p c items lists ttl ts tr n]. exec. split; [reflexivity|].
    constructor; try reflexivity.
    eexists. split; [rewrite <- !app_assoc; reflexivity|].
    repeat split; reflexivity.
Qed.

Lemma non_object_stores event partition_context body :
  json_loads env (body_as_str event) = inr body ->
  (forall kvs, body <> JObj kvs) ->
  stable stores_untouched (process_single_event env event partition_context).
Proof.
  intros Hloads Hshape. unfold process_single_event, now.
  apply stable_bind; try typeclasses eauto; [stable | intros start_time].
  apply stable_with_span; try typeclasses eauto; auto with stable.
  apply stable_try_except; try typeclasses eauto; [|unfold now, logger; stable].
  rewrite Hloads, bind_ret_l.
  do 6 (apply stable_bind; try typeclasses eauto; [unfold logger; stable | intros ?]).
  apply stable_bind; try typeclasses eauto;
    [apply stable_maybe_inject_failure; try typeclasses eauto; auto with stable
    | intros ?].
  apply stable_bind_raises; try typeclasses eauto; [|apply raises_dispatch, Hshape].
  apply stable_dispatch; try typeclasses eauto; auto with stable.
Qed.

End NonObjectEvent.

(** X2: an event whose body decodes to something that is not a dict (a list,
    a number, a string, null) fails alone.  Whatever its type, the handler
    raises on the first [get] or [keys]; [process_single_event] catches it,
    counts the event once as failed and never as processed, returns normally,
    and neither the document store nor the cache is written. *)
Theorem non_object_payload_fails_the_event
    (env : Env) (event : EventData) (partition_context : PartitionContext)
    (body : json) (w : World) :
  json_loads env (body_as_str event) = inr body ->
  (forall kvs, body <> JObj kvs) ->
  let r := process_single_event env event partition_context w in
  fst r = Ret tt /\ ext 0 1 0 w (snd r) /\ stores_untouched w (snd r).
Proof.
  intros Hloads Hshape r.
  destruct (non_object_outcome env event partition_context body Hloads Hshape w)
    as [Hret Hext].
  split; [exact Hret|]. split; [exact Hext|].
  apply (non_object_stores env event partition_context body Hloads Hshape w).
Qed.

(** X2 at work: an [OrderCreated] event whose body is a JSON array. *)
Lemma non_object_payload_fails_the_event_witness :
  let pc := mkPartitionContext "0" in
  let w := sample_world ready_processor uninjected_config in
  let r := process_single_event array_env array_event pc w in
  json_loads array_env (body_as_str array_event) = inr (JArr [JInt 1; JInt 2]) /\
  fst r = Ret tt /\ ext 0 1 0 w (snd r) /\ stores_untouched w (snd r).
Proof.
  intros pc w r. split; [reflexivity|].
  apply (non_object_payload_fails_the_event array_env array_event pc
           (JArr [JInt 1; JInt 2]) w eq_refl).
  intros kvs. discriminate.
Defined.

(** ** Who writes where *)

Section Writers.

Variable env : Env.

Lemma stable_net_call (R : World -> World -> Prop) `{!PreOrder R}
    (R_tick : stable R tick) : stable R (net_call env).
Proof. unfold net_call. stable. Qed.

Lemma redis_untouched_store event_data event_type :
  stable redis_untouched (store_processed_event env event_data event_type).
Proof.
  unfold store_processed_event, store_processed_event_except, with_span, now, utcnow,
    py_get, upsert_item, net_call, logger.
  cbv zeta. stable.
Qed.

Lemma cosmos_untouched_lpush key value :
  stable cosmos_untouched (lpush env key value).
Proof. unfold lpush, net_call. stable. Qed.

Lemma cosmos_untouched_ltrim key start stop :
  stable cosmos_untouched (ltrim env key start stop).
Proof.
  unfold ltrim, net_call. apply stable_bind; try typeclasses eauto; [stable|].
  intros ? w. unfold modify, cosmos_untouched. cbn [snd].
  destruct (redis_lists w !! key) as [l|]; [|reflexivity].
  destruct (take (S stop - start) (drop start l)); destruct w; reflexivity.
Qed.

Lemma cosmos_untouched_expire key seconds :
  stable cosmos_untouched (expire env key seconds).
Proof.
  unfold expire, net_call. apply stable_bind; try typeclasses eauto; [stable|].
  intros ? w. unfold modify, cosmos_untouched. cbn [snd].
  destruct (redis_lists w !! key); destruct w; reflexivity.
Qed.

#[local] Hint Resolve cosmos_untouched_lpush cosmos_untouched_ltrim cosmos_untouched_expire
  : stable.

Lemma cosmos_untouched_cache event_data event_type :
  stable cosmos_untouched (cache_event_summary env event_data event_type).
Proof. unfold cache_event_summary, utcnow, logger. cbv zeta. stable. Qed.

End Writers.

(** X9: only the two write paths write.  The fault injector, the three
    handlers and [send_notification] leave the document store and the cache
    as they are; [store_processed_event] never touches the cache and
    [cache_event_summary] never touches the document store.  This holds on
    every input, whether the call returns or raises. *)
Theorem only_the_write_paths_write
    (env : Env) (event_data : json) (event_type operation : string)
    (customer_id : json) (message : string) (w : World) :
  stores_untouched w (snd (maybe_inject_failure env operation w)) /\
  stores_untouched w (snd (handle_order_created env event_data w)) /\
  stores_untouched w (snd (handle_order_status_updated env event_data w)) /\
  stores_untouched w (snd (handle_generic_event env event_data w)) /\
  stores_untouched w (snd (send_notification env customer_id message w)) /\
  redis_untouched w (snd (store_processed_event env event_data event_type w)) /\
  cosmos_untouched w (snd (cache_event_summary env event_data event_type w)).
Proof.
  repeat split.
  all: first
    [ apply (stable_maybe_inject_failure env stores_untouched)
    | apply (stable_handle_order_created env stores_untouched)
    | apply (stable_handle_order_status_updated env stores_untouched)
    | apply (stable_handle_generic_event env stores_untouched)
    | apply (stable_send_notification env stores_untouched)
    | apply redis_untouched_store
    | apply cosmos_untouched_cache ]; auto with stable.
Qed.

(** ** Notifications *)

Section Notifications.

Variable env : Env.
Variable P : Effect -> bool.

Lemma emits_no_tick : stable (emits_no P) tick.
Proof. stable_prim. Qed.

Lemma emits_no_net_call : stable (emits_no P) (net_call env).
Proof. unfold net_call. pose proof emits_no_tick. stable. Qed.

Lemma emits_no_upsert_item document : stable (emits_no P) (upsert_item env document).
Proof. unfold upsert_item. pose proof emits_no_net_call. stable. Qed.

Lemma emits_no_lpush key value : stable (emits_no P) (lpush env key value).
Proof. unfold lpush. pose proof emits_no_net_call. stable. Qed.

Lemma emits_no_ltrim key start stop : stable (emits_no P) (ltrim env key start stop).
Proof.
  unfold ltrim. apply stable_bind; try typeclasses eauto; [apply emits_no_net_call|].
  intros ? w. unfold modify. cbn [snd]. apply emits_no_same_trace.
  destruct (redis_lists w !! key) as [l|]; [|reflexivity].
  destruct (take (S stop - start) (drop start l)); destruct w; reflexivity.
Qed.

Lemma emits_no_expire key seconds : stable (emits_no P) (expire env key seconds).
Proof.
  unfold expire. apply stable_bind; try typeclasses eauto; [apply emits_no_net_call|].
  intros ? w. unfold modify. cbn [snd]. apply emits_no_same_trace.
  destruct (redis_lists w !! key); destruct w; reflexivity.
Qed.

End Notifications.

#[export] Hint Resolve emits_no_tick emits_no_net_call emits_no_upsert_item
  emits_no_lpush emits_no_ltrim emits_no_expire : stable.

Section NoNotification.

Variable env : Env.

Lemma no_notification_event event partition_context :
  default "Unknown" (assoc_get "EventType" (properties event)) <> "OrderCreated" ->
  stable (emits_no is_notification)
         (process_single_event env event partition_context).
Proof.
  intros Hother. apply String.eqb_neq in Hother.
  unfold process_single_event. rewrite Hother.
  unfold maybe_inject_failure, handle_order_status_updated, handle_generic_event,
    store_processed_event, store_processed_event_except, cache_event_summary,
    with_span, now, utcnow, uniform, random, choice, asyncio_sleep, logger,
    py_get, py_keys.
  cbv zeta. stable.
Qed.

End NoNotification.

(** X6: only created orders notify.  An event whose [EventType] property is
    not [OrderCreated] (or is missing) never logs "Notification sent",
    whatever its body, the configuration and the answers of the
    surroundings. *)
Theorem only_created_orders_notify
    (env : Env) (event : EventData) (partition_context : PartitionContext)
    (w : World) :
  default "Unknown" (assoc_get "EventType" (properties event)) <> "OrderCreated" ->
  exists d,
    trace (snd (process_single_event env event partition_context w)) = trace w ++ d /\
    count is_notification d = 0.
Proof.
  intros Hother. apply (no_notification_event env event partition_context Hother w).
Qed.

(** X6 at work: a status update, with fault injection switched on. *)
Lemma only_created_orders_notify_witness :
  let pc := mkPartitionContext "0" in
  let w := sample_world ready_processor sample_config in
  default "Unknown" (assoc_get "EventType" (properties status_event)) =
    "OrderStatusUpdated" /\
  exists d,
    trace (snd (process_single_event stormy_env status_event pc w)) = trace w ++ d /\
    count is_notification d = 0.
Proof.
  intros pc w. split; [reflexivity|].
  apply (only_created_orders_notify stormy_env status_event pc w). discriminate.
Defined.

Section Silent.

Variable env : Env.

(** A write path returns, keeps the processor object and sends no
    notification, whatever the store and the cache answer. *)
Lemma write_path_is_silent (c : M unit) (w : World) :
  returns c -> quiet c -> stable (emits_no is_notification) c ->
  exists d w',
    c w = (Ret tt, w') /\ processor w' = processor w /\
    trace w' = trace w ++ d /\ count is_notification d = 0.
Proof.
  intros Hr Hq Hs. destruct (Hr w) as [[] Hret]. destruct (Hs w) as (d & Hd & Hc).
  destruct (Hq w) as [Hp _ _ _]. exists d, (snd (c w)).
  split; [destruct (c w); cbn in *; congruence|]. auto.
Qed.

Lemma store_is_silent event_data event_type (w : World) :
  exists d w',
    store_processed_event env event_data event_type w = (Ret tt, w') /\
    processor w' = processor w /\
    trace w' = trace w ++ d /\ count is_notification d = 0.
Proof.
  apply write_path_is_silent.
  - apply returns_store_processed_event.
  - apply quiet_store_processed_event.
  - unfold store_processed_event, store_processed_event_except, with_span, now,
      utcnow, py_get, logger. cbv zeta. stable.
Qed.

Lemma cache_is_silent event_data event_type (w : World) :
  exists d w',
    cache_event_summary env event_data event_type w = (Ret tt, w') /\
    processor w' = processor w /\
    trace w' = trace w ++ d /\ count is_notification d = 0.
Proof.
  apply write_path_is_silent.
  - apply returns_cache_event_summary.
  - apply quiet_cache_event_summary.
  - unfold cache_event_summary, utcnow, logger. cbv zeta. stable.
Qed.

End Silent.

(** X5: with fault injection off, an [OrderCreated] event whose body is a
    dict sends exactly one notification, addressed to the body's
    [CustomerId], with the message "Order <OrderId> created" ([None] stands
    for a missing field).  It is sent whether or not the store and the cache
    accept their writes afterwards. *)
Theorem created_order_notifies_once
    (env : Env) (event : EventData) (partition_context : PartitionContext)
    (kvs : list (string * json)) (w : World) :
  json_loads env (body_as_str event) = inr (JObj kvs) ->
  assoc_get "EventType" (properties event) = Some "OrderCreated" ->
  injection_off w ->
  let order_id := default JNull (assoc_get "OrderId" kvs) in
  let customer_id := default JNull (assoc_get "CustomerId" kvs) in
  let r := process_single_event env event partition_context w in
  exists d1 d2,
    trace (snd r) =
      trace w ++ d1
        ++ notification customer_id ("Order " +:+ py_str env order_id +:+ " created")
        :: d2 /\
    count is_notification d1 = 0 /\
    count is_notification d2 = 0.
Proof.
  intros Hloads Htype Hoff order_id customer_id r.
  destruct w as [p c items lists ttl ts tr n].
  destruct c as [eh_conn eh_name group endpoint ckey database container url fi lp ep].
  destruct p as [rc cc ccont cons prod rn].
  unfold injection_off in Hoff. cbn [config FAILURE_INJECTION_ENABLED] in Hoff. subst fi.
  remember r as r0 eqn:Hrun. subst r.
  revert Hrun. unfold process_single_event.
  set (store := store_processed_event env).
  set (cache := cache_event_summary env).
  subst order_id customer_id. exec. rewrite Hloads, Htype. exec.
  set (order_id := match assoc_get "OrderId" kvs with Some x => x | None => JNull end).
  set (customer_id := match assoc_get "CustomerId" kvs with Some x => x | None => JNull end).
  rewrite String.eqb_refl. exec.
  destruct ccont as [cont|]; exec; subst store;
    try match goal with
    | |- context [store_processed_event env ?a ?b ?w1] =>
        destruct (store_is_silent env a b w1) as (ds & w2 & -> & Hp2 & Hd2 & Hc2);
        destruct w2 as [p2 c2 items2 lists2 ttl2 ts2 tr2 n2];
        cbn [processor trace] in Hp2, Hd2; subst p2 tr2; exec
    end;
    (destruct rc as [rcl|]; exec; subst cache;
     try match goal with
     | |- context [cache_event_summary env ?a ?b ?w1] =>
         destruct (cache_is_silent env a b w1) as (dc & w3 & -> & Hp3 & Hd3 & Hc3);
         destruct w3 as [p3 c3 items3 lists3 ttl3 ts3 tr3 n3];
         cbn [processor trace] in Hp3, Hd3; subst p3 tr3; exec
     end);
    intros ->; exec;
    rewrite <- !app_assoc; cbn [app];
    eexists [_; _; _; _; _; _; _; _; _; _; _; _; _; _; _], _;
    (split; [reflexivity|]); (split; [reflexivity|]);
    rewrite ?count_cons, ?count_app, ?Hc2, ?Hc3; reflexivity.
Qed.

(** X5 at work: the order is announced although the store and the cache are
    both unreachable. *)
Lemma created_order_notifies_once_witness :
  let e := PyExc "ServiceRequestError" "connection refused" in
  let env := failing_env e in
  let pc := mkPartitionContext "0" in
  let w := sample_world ready_processor uninjected_config in
  let r := process_single_event env order_event pc w in
  json_loads env (body_as_str order_event) = inr (JObj order_body) /\
  assoc_get "EventType" (properties order_event) = Some "OrderCreated" /\
  injection_off w /\
  exists d1 d2,
    trace (snd r) = trace w ++ d1 ++ notification (JStr "C1") "Order O1 created" :: d2 /\
    count is_notification d1 = 0 /\
    count is_notification d2 = 0.
Proof.
  intros e env pc w r. do 3 (split; [reflexivity|]).
  exact (created_order_notifies_once env order_event pc order_body w
           eq_refl eq_refl eq_refl).
Defined.

(** ** Fault injection switched on *)

Lemma uniform_in_range (a b r : Q) :
  (a <= b)%Q -> (0 <= r)%Q -> (r <= 1)%Q ->
  (a <= a + (b - a) * r /\ a + (b - a) * r <= b)%Q.
Proof. intros Hab H0 H1. split; nra. Qed.

Lemma choice_in (env : Env) (n : nat) (seq : list string) :
  seq <> [] ->
  In (nth (random_below env n (length seq) mod length seq) seq "") seq.
Proof.
  intros Hne. apply nth_In. apply Nat.mod_upper_bound.
  destruct seq; [congruence | cbn; lia].
Qed.

(** X4: what fault injection can do when it is switched on.  For draws of
    [random.random()] in [0, 1], [maybe_inject_failure] changes nothing of
    the processor, the configuration, the stores or the tasks; it sleeps at
    most once, for between 0.1 and 2 seconds; and it either returns or raises
    [Exception("Simulated <t> error in <operation>")] with [t] one of
    network, database, processing and timeout. *)
Theorem maybe_inject_failure_enabled
    (env : Env) (operation : string) (w : World) :
  FAILURE_INJECTION_ENABLED (config w) = true ->
  (forall n, 0 <= random_random env n /\ random_random env n <= 1)%Q ->
  let r := maybe_inject_failure env operation w in
  same_state w (snd r) /\
  (exists d, trace (snd r) = trace w ++ d /\
             Forall delay_in_range d /\ count is_sleep d <= 1) /\
  (fst r = Ret tt \/
   exists error_type,
     In error_type error_types /\
     fst r = Raise (PyExc "Exception"
                      ("Simulated " +:+ error_type +:+ " error in " +:+ operation))).
Proof.
  destruct w as [p c items lists ttl ts tr n].
  destruct c as [eh_conn eh_name group endpoint key database container url fi lp ep].
  cbn [config FAILURE_INJECTION_ENABLED]. intros -> Hdraw.
  pose proof (fun k => uniform_in_range (1 # 10) 2 (random_random env k)
                         ltac:(lra) (proj1 (Hdraw k)) (proj2 (Hdraw k))) as Hu.
  cbv zeta. exec.
  destruct (Qlt_bool (random_random env n) lp); exec;
    match goal with
    | |- context [Qlt_bool (random_random env ?k) ep] =>
        destruct (Qlt_bool (random_random env k) ep)
    end; exec;
    (split; [repeat split|]);
    (split;
     [eexists; split; [rewrite <- ?app_assoc; try reflexivity; symmetry; apply app_nil_r|];
      split; [repeat constructor; try apply Hu | cbv; lia]
     |]);
    first [left; reflexivity
          |right; eexists; split; [|reflexivity];
           apply (choice_in env _ error_types); discriminate].
Qed.

(** X4 at work: every draw is 0, so the delay and the error are both
    injected. *)
Lemma maybe_inject_failure_enabled_witness :
  let w := sample_world ready_processor sample_config in
  let r := maybe_inject_failure stormy_env "process_event" w in
  FAILURE_INJECTION_ENABLED (config w) = true /\
  same_state w (snd r) /\
  (exists d, trace (snd r) = trace w ++ d /\
             Forall delay_in_range d /\ count is_sleep d <= 1) /\
  fst r = Raise (PyExc "Exception" "Simulated database error in process_event").
Proof.
  intros w r.
  destruct (maybe_inject_failure_enabled stormy_env "process_event" w eq_refl)
    as (Hstate & Htrace & _).
  { intros n. cbn. lra. }
  split; [reflexivity|]. split; [exact Hstate|]. split; [exact Htrace|]. reflexivity.
Defined.

(** X3: an injected error fails the event before any handler runs.  When
    injection is on and the error draw falls below the error probability,
    [process_single_event] returns normally, the span status is ERROR with
    the simulated error as description, the event is counted once as failed
    and not as processed, no handler span is opened, and neither store is
    written.  The error draw is the second draw of the injector, the third
    when a delay was injected first. *)
Theorem injected_error_fails_the_event
    (env : Env) (event : EventData) (partition_context : PartitionContext)
    (body : json) (w : World) :
  json_loads env (body_as_str event) = inr body ->
  FAILURE_INJECTION_ENABLED (config w) = true ->
  let delayed :=
    Qlt_bool (random_random env (1 + steps w))
             (LATENCY_INJECTION_PROBABILITY (config w)) in
  let error_draw := if delayed then 3 + steps w else 2 + steps w in
  Qlt_bool (random_random env error_draw)
           (ERROR_INJECTION_PROBABILITY (config w)) = true ->
  let r := process_single_event env event partition_context w in
  fst r = Ret tt /\
  stores_untouched w (snd r) /\
  exists d error_type,
    trace (snd r) = trace w ++ d /\
    In error_type error_types /\
    In (SetStatus "process_single_event" StERROR
          (Some ("Simulated " +:+ error_type +:+ " error in process_event"))) d /\
    count is_failed d = 1 /\
    count is_processed d = 0 /\
    count is_dispatch d = 0.
Proof.
  destruct w as [p c items lists ttl ts tr n].
  destruct c as [eh_conn eh_name group endpoint key database container url fi lp ep].
  cbn [config steps FAILURE_INJECTION_ENABLED LATENCY_INJECTION_PROBABILITY
       ERROR_INJECTION_PROBABILITY].
  intros Hloads -> Herr. cbv zeta in *. cbn [Nat.add] in Herr.
  exec. rewrite Hloads. exec.
  destruct (Qlt_bool (random_random env (S n)) lp); exec;
    rewrite Herr; exec;
    (split; [reflexivity|]); (split; [repeat split|]);
    eexists; eexists;
    (split; [rewrite <- !app_assoc; reflexivity|]);
    (split; [|split; [repeat (first [left; reflexivity | right])
                     |repeat split; reflexivity]]);
    apply choice_in; discriminate.
Qed.

(** X3 at work: every draw is 0. *)
Lemma injected_error_fails_the_event_witness :
  let env := stormy_env in
  let pc := mkPartitionContext "0" in
  let w := sample_world ready_processor sample_config in
  let r := process_single_event env order_event pc w in
  json_loads env (body_as_str order_event) = inr (JObj order_body) /\
  FAILURE_INJECTION_ENABLED (config w) = true /\
  Qlt_bool (random_random env (3 + steps w)) (ERROR_INJECTION_PROBABILITY (config w))
    = true /\
  fst r = Ret tt /\
  stores_untouched w (snd r) /\
  exists d error_type,
    trace (snd r) = trace w ++ d /\
    In error_type error_types /\
    In (SetStatus "process_single_event" StERROR
          (Some ("Simulated " +:+ error_type +:+ " error in process_event"))) d /\
    count is_failed d = 1 /\
    count is_processed d = 0 /\
    count is_dispatch d = 0.
Proof.
  intros env pc w r. do 3 (split; [reflexivity|]).
  exact (injected_error_fails_the_event env order_event pc (JObj order_body) w
           eq_refl eq_refl eq_refl).
Defined.

(** ** The undisturbed path *)

(** What one write that the store accepts does. *)
Lemma store_processed_event_ok (env : Env) (kvs : list (string * json))
    (event_type : string) (w : World) :
  net_fault env (2 + steps w) = None ->
  let order_id :=
    default (JStr ("unknown_" +:+ pretty (py_int (float_mul (time_time env (steps w)) 1000))))
            (assoc_get "OrderId" kvs) in
  let document :=
    mkDocument (event_type +:+ "_" +:+ py_str env order_id) event_type (JObj kvs)
               (utcnow_isoformat env (1 + steps w)) "event-processor" in
  store_processed_event env (JObj kvs) event_type w =
    (Ret tt,
     set_cosmos_items (<[doc_id document := document]> (cosmos_items w))
       (set_steps (3 + steps w)
          (set_trace
             (trace w ++
              [SpanStart "store_processed_event";
               SetAttribute "store_processed_event" "cosmos.document_id"
                 (VStr (doc_id document));
               Log LInfo "Event stored in Cosmos DB"
                 [("document_id", VStr (doc_id document));
                  ("event_type", VStr event_type);
                  ("order_id", VPy order_id)];
               SpanEnd "store_processed_event"]) w))).
Proof.
  destruct w as [p c items lists ttl ts tr n]. intros Hok. exec_in Hok.
  cbv zeta. exec. rewrite Hok. exec. rewrite <- !app_assoc. reflexivity.
Qed.

(** X1: the undisturbed path of an event.  With fault injection off, both
    clients initialised and no failing network call, an event whose body is a
    dict is counted once as processed; one document is upserted, holding the
    event type, the body and the service name, under the id
    [event_type + "_" + str(OrderId)] when the body has an [OrderId]; one
    entry is pushed on the head of [recent_events:<event_type>], the list is
    cut to 100 entries and expires in 3600 seconds; and a notification is
    sent exactly when the type is [OrderCreated]. *)
Theorem event_is_stored_and_cached
    (env : Env) (event : EventData) (partition_context : PartitionContext)
    (kvs : list (string * json)) (w : World) :
  json_loads env (body_as_str event) = inr (JObj kvs) ->
  injection_off w ->
  is_some (cosmos_container (processor w)) = true ->
  is_some (redis_client (processor w)) = true ->
  (forall n, net_fault env n = None) ->
  let event_type := default "Unknown" (assoc_get "EventType" (properties event)) in
  let key := "recent_events:" +:+ event_type in
  let r := process_single_event env event partition_context w in
  fst r = Ret tt /\
  (exists document,
     cosmos_items (snd r) = <[doc_id document := document]> (cosmos_items w) /\
     doc_eventType document = event_type /\
     doc_eventData document = JObj kvs /\
     doc_processingService document = "event-processor" /\
     (forall order_id, assoc_get "OrderId" kvs = Some order_id ->
        doc_id document = event_type +:+ "_" +:+ py_str env order_id)) /\
  (exists entry,
     redis_lists (snd r) !! key =
       Some (take 100 (entry :: default [] (redis_lists w !! key)))) /\
  redis_ttl (snd r) !! key = Some 3600%Z /\
  exists d,
    trace (snd r) = trace w ++ d /\
    count is_processed d = 1 /\
    count is_failed d = 0 /\
    count is_notification d = if String.eqb event_type "OrderCreated" then 1 else 0.
Proof.
  intros Hloads Hoff Hcosmos Hredis Hnet event_type key r.
  destruct w as [p c items lists ttl ts tr n].
  destruct c as [eh_conn eh_name group endpoint ckey database container url fi lp ep].
  destruct p as [rc cc ccont cons prod rn].
  unfold injection_off in Hoff.
  cbn [config processor FAILURE_INJECTION_ENABLED cosmos_container redis_client]
    in Hoff, Hcosmos, Hredis.
  subst fi. destruct ccont as [cont|]; [|discriminate].
  destruct rc as [rcl|]; [|discriminate].
  remember r as r0 eqn:Hrun. subst r.
  revert Hrun. unfold process_single_event.
  set (store := store_processed_event env).
  set (cache := cache_event_summary env).
  subst event_type key. exec. rewrite Hloads. exec.
  set (event_type := match assoc_get "EventType" (properties event) with
                     | Some x => x
                     | None => "Unknown"
                     end).
  destruct (String.eqb event_type "OrderCreated"); exec;
    [|destruct (String.eqb event_type "OrderStatusUpdated"); exec];
    subst store; rewrite store_processed_event_ok by apply Hnet; exec;
    subst cache; rewrite cache_event_summary_ok by apply Hnet; exec;
    intros ->; exec;
    (split; [reflexivity|]);
    (split; [match goal with
             | |- context [<[_ := ?doc]> items] => exists doc
             end; split; [reflexivity|]; repeat split;
             intros order_id Hid; cbn [doc_id]; rewrite Hid; reflexivity|]);
    (split; [eexists; rewrite lookup_insert_eq; reflexivity|]);
    (split; [apply lookup_insert_eq|]);
    eexists; (split; [rewrite <- !app_assoc; reflexivity|]);
    repeat split; reflexivity.
Qed.

(** X1 at work: the sample order in calm surroundings. *)
Lemma event_is_stored_and_cached_witness :
  let env := calm_env [] None in
  let pc := mkPartitionContext "0" in
  let w := sample_world ready_processor uninjected_config in
  let r := process_single_event env order_event pc w in
  json_loads env (body_as_str order_event) = inr (JObj order_body) /\
  injection_off w /\
  fst r = Ret tt /\
  (exists document,
     cosmos_items (snd r) = <[doc_id document := document]> (cosmos_items w) /\
     doc_id document = "OrderCreated_O1") /\
  (exists entry,
     redis_lists (snd r) !! "recent_events:OrderCreated" = Some [entry]) /\
  redis_ttl (snd r) !! "recent_events:OrderCreated" = Some 3600%Z /\
  exists d,
    trace (snd r) = trace w ++ d /\
    count is_processed d = 1 /\ count is_failed d = 0 /\ count is_notification d = 1.
Proof.
  intros env pc w r.
  destruct (event_is_stored_and_cached env order_event pc order_body w
              eq_refl eq_refl eq_refl eq_refl (fun n => eq_refl))
    as (Hret & (document & Hitems & _ & _ & _ & Hid) & Hlist & Httl & Htrace).
  do 2 (split; [reflexivity|]). split; [exact Hret|].
  split; [exists document; split; [exact Hitems | exact (Hid (JStr "O1") eq_refl)]|].
  split; [exact Hlist|]. split; [exact Httl | exact Htrace].
Defined.

(** ** Document ids and conflicts *)

(** X7: an event without an [OrderId] is keyed by the clock.  Its document id
    is [event_type + "_unknown_" + str(int(time.time() * 1000))], read when
    the write starts; the product is the float product, rounded to the
    nearest binary64 number before [int] truncates it.  So a redelivery of the same event in a different
    millisecond is stored as a second document beside the first (the store
    grows by one), and only a redelivery within the same millisecond
    overwrites it. *)
Theorem missing_order_id_is_keyed_by_the_clock
    (env : Env) (kvs : list (string * json)) (event_type : string) (w w2 : World) :
  assoc_get "OrderId" kvs = None ->
  net_fault env (2 + steps w) = None ->
  net_fault env (2 + steps w2) = None ->
  let millis w0 := py_int (float_mul (time_time env (steps w0)) 1000) in
  let document_id w0 := event_type +:+ "_" +:+ "unknown_" +:+ pretty (millis w0) in
  let w1 := snd (store_processed_event env (JObj kvs) event_type w) in
  let w3 := snd (store_processed_event env (JObj kvs) event_type w2) in
  cosmos_items w2 = cosmos_items w1 ->
  (exists document,
     cosmos_items w1 !! document_id w = Some document /\ doc_id document = document_id w) /\
  (millis w <> millis w2 ->
   document_id w <> document_id w2 /\
   is_Some (cosmos_items w3 !! document_id w) /\
   is_Some (cosmos_items w3 !! document_id w2) /\
   (cosmos_items w1 !! document_id w2 = None ->
    size (cosmos_items w3) = S (size (cosmos_items w1)))) /\
  (millis w = millis w2 ->
   dom (cosmos_items w3) = dom (cosmos_items w1)).
Proof.
  intros Hmissing Hok Hok2 millis document_id w1 w3 Hsame.
  assert (Hrun : forall w0, net_fault env (2 + steps w0) = None ->
            exists document,
              doc_id document = document_id w0 /\
              cosmos_items (snd (store_processed_event env (JObj kvs) event_type w0)) =
                <[document_id w0 := document]> (cosmos_items w0)).
  { intros w0 H0. rewrite store_processed_event_ok by exact H0.
    rewrite Hmissing. destruct w0 as [p c items lists ttl ts tr n].
    eexists. split; [|reflexivity]. reflexivity. }
  destruct (Hrun w Hok) as (doc1 & Hid1 & H1). fold w1 in H1.
  destruct (Hrun w2 Hok2) as (doc2 & Hid2 & H2). fold w3 in H2.
  rewrite Hsame in H2.
  split; [exists doc1; rewrite H1, lookup_insert_eq; auto|]. split.
  - intros Hdiff.
    assert (Hne : document_id w <> document_id w2).
    { unfold document_id. intros Heq.
      do 3 apply String.app_inj in Heq. apply pretty_Z_inj in Heq. contradiction. }
    split; [exact Hne|]. rewrite H2.
    split; [rewrite lookup_insert_ne by congruence; rewrite H1, lookup_insert_eq; eauto|].
    split; [rewrite lookup_insert_eq; eauto|].
    intros Hfresh. apply map_size_insert_None. exact Hfresh.
  - intros Heq. rewrite H2. unfold document_id. rewrite <- Heq. fold (document_id w).
    rewrite dom_insert_L.
    assert (Hin : document_id w ∈ dom (cosmos_items w1)).
    { apply elem_of_dom. rewrite H1, lookup_insert_eq. eauto. }
    apply (subseteq_union_1_L (C := gset string)), singleton_subseteq_l, Hin.
Qed.

(** X7 at work: the same anonymous event stored twice, the clock reading
    1730000000.0565 at the first write and 1730000000.057 at the second.  The
    float products are 1730000000056.5 and 1730000000057.0, so the two
    writes land on two documents. *)
Lemma missing_order_id_is_keyed_by_the_clock_witness :
  let env := fine_clock_env in
  let w := sample_world ready_processor uninjected_config in
  let w1 := snd (store_processed_event env (JObj anonymous_body) "Generic" w) in
  let w3 := snd (store_processed_event env (JObj anonymous_body) "Generic" w1) in
  assoc_get "OrderId" anonymous_body = None /\
  py_int (float_mul (time_time env (steps w)) 1000) = 1730000000056%Z /\
  py_int (float_mul (time_time env (steps w1)) 1000) = 1730000000057%Z /\
  is_Some (cosmos_items w3 !! "Generic_unknown_1730000000056") /\
  is_Some (cosmos_items w3 !! "Generic_unknown_1730000000057") /\
  size (cosmos_items w1) = 1 /\
  size (cosmos_items w3) = 2.
Proof.
  intros env w w1 w3.
  assert (Hm : py_int (float_mul (time_time env (steps w)) 1000) = 1730000000056%Z)
    by (vm_compute; reflexivity).
  assert (Hm1 : py_int (float_mul (time_time env (steps w1)) 1000) = 1730000000057%Z)
    by (vm_compute; reflexivity).
  destruct (missing_order_id_is_keyed_by_the_clock env anonymous_body "Generic" w w1
              eq_refl eq_refl eq_refl eq_refl) as ((doc & Hdoc & _) & Hdiff & _).
  cbv beta in Hdoc, Hdiff. rewrite Hm in Hdoc, Hdiff. rewrite Hm1 in Hdiff.
  change ("Generic" +:+ "_" +:+ "unknown_" +:+ pretty 1730000000056%Z)
    with "Generic_unknown_1730000000056" in Hdoc, Hdiff.
  change ("Generic" +:+ "_" +:+ "unknown_" +:+ pretty 1730000000057%Z)
    with "Generic_unknown_1730000000057" in Hdiff.
  assert (H1 : cosmos_items w1 = {["Generic_unknown_1730000000056" := doc]}).
  { apply map_eq. intros k.
    destruct (decide (k = "Generic_unknown_1730000000056")) as [->|Hne].
    - rewrite lookup_singleton_eq. exact Hdoc.
    - rewrite lookup_singleton_ne by congruence.
      unfold w1. rewrite store_processed_event_ok by reflexivity.
      cbn [snd cosmos_items set_cosmos_items]. rewrite lookup_insert_ne; [reflexivity|].
      cbn [doc_id]. change (assoc_get "OrderId" anonymous_body) with (@None json).
      cbn [default from_option py_str]. fold env. rewrite Hm.
      intros Heq. apply Hne. rewrite <- Heq. reflexivity. }
  destruct Hdiff as (_ & Hfirst & Hsecond & Hsize); [discriminate|].
  do 3 (split; [assumption || reflexivity|]).
  split; [exact Hfirst|]. split; [exact Hsecond|].
  assert (Hone : size (cosmos_items w1) = 1) by (rewrite H1; apply map_size_singleton).
  split; [exact Hone|].
  transitivity (S (size (cosmos_items w1))); [apply Hsize | rewrite Hone; reflexivity].
  change (cosmos_items w1 !! "Generic_unknown_1730000000057" = None).
  rewrite H1. apply lookup_singleton_ne. discriminate.
Defined.

Lemma prefix_spec (n h : string) :
  String.prefix n h = true <-> exists post, h = n +:+ post.
Proof.
  revert h. induction n as [|a n IH]; intros h; cbn.
  - split; [intros _; exists h; reflexivity | destruct h; reflexivity].
  - destruct h as [|b h]; cbn.
    + split; [discriminate | intros [post Hpost]; cbn in Hpost; discriminate].
    + destruct (Ascii.ascii_dec a b) as [-> | Hne].
      * rewrite IH. split; intros [post Hpost]; exists post.
        -- cbn [String.append]. rewrite Hpost. reflexivity.
        -- cbn [String.append] in Hpost. injection Hpost as ->. reflexivity.
      * split; [discriminate|]. intros [post Hpost]. cbn [String.append] in Hpost.
        injection Hpost as Hab _. congruence.
Qed.

(** [str_in] is Python's [in] on strings: the needle occurs somewhere. *)
Lemma str_in_spec (n h : string) :
  str_in n h = true <-> exists pre post, h = pre +:+ n +:+ post.
Proof.
  induction h as [|b h IH]; cbn [str_in]; rewrite orb_true_iff, prefix_spec.
  - split.
    + intros [[post Hpost] | Hf]; [exists "", post; exact Hpost | discriminate].
    + intros (pre & post & H). left. destruct pre; [exists post; exact H | discriminate].
  - rewrite IH. split.
    + intros [[post Hpost] | (pre & post & H)].
      * exists "", post. exact Hpost.
      * exists (String b pre), post. cbn [String.append]. rewrite H. reflexivity.
    + intros (pre & post & H). destruct pre as [|a pre]; cbn [String.append] in H.
      * left. exists post. exact H.
      * right. exists pre, post. injection H as _ ->. reflexivity.
Qed.

(** X8: a failed upsert is told apart by the text of the exception alone.
    Whatever its class, the write is treated as a duplicate (attribute
    [cosmos.duplicate_event], nothing recorded) exactly when [str(e)]
    contains both "Conflict" and "409"; in every other case the exception is
    recorded on the span.  Either way the call returns and the store is
    unchanged. *)
Theorem conflict_detection_is_textual
    (env : Env) (kvs : list (string * json)) (event_type : string)
    (e : Exn) (w : World) :
  net_fault env (2 + steps w) = Some e ->
  let mentions s := exists pre post, exn_str e = pre +:+ s +:+ post in
  let r := store_processed_event env (JObj kvs) event_type w in
  fst r = Ret tt /\
  cosmos_items (snd r) = cosmos_items w /\
  exists d,
    trace (snd r) = trace w ++ d /\
    (mentions "Conflict" /\ mentions "409" <->
     In (SetAttribute "store_processed_event" "cosmos.duplicate_event" (VBool true)) d) /\
    (~ (mentions "Conflict" /\ mentions "409") <->
     In (RecordException "store_processed_event" e) d).
Proof.
  intros Hfault mentions r. subst r mentions. cbv beta.
  destruct w as [p c items lists ttl ts tr n]. exec_in Hfault.
  exec. rewrite Hfault. exec.
  destruct (str_in "Conflict" (exn_str e)) eqn:HC;
    [destruct (str_in "409" (exn_str e)) eqn:H4|];
    exec; (split; [reflexivity|]); (split; [reflexivity|]);
    eexists; (split; [rewrite <- !app_assoc; reflexivity|]);
    rewrite <- !str_in_spec, HC, ?H4; cbn [In app];
    split; split; intuition (try reflexivity; try discriminate; try congruence).
Qed.

(** X8 at work: "Conflict" without "409" is an ordinary failure. *)
Lemma conflict_detection_is_textual_witness :
  let e := PyExc "CosmosHttpResponseError" "Conflict while writing" in
  let env := failing_env e in
  let w := sample_world ready_processor sample_config in
  let r := store_processed_event env (JObj order_body) "OrderCreated" w in
  net_fault env (2 + steps w) = Some e /\
  fst r = Ret tt /\
  cosmos_items (snd r) = cosmos_items w /\
  exists d,
    trace (snd r) = trace w ++ d /\
    In (RecordException "store_processed_event" e) d /\
    ~ In (SetAttribute "store_processed_event" "cosmos.duplicate_event" (VBool true)) d.
Proof.
  intros e env w r.
  destruct (conflict_detection_is_textual env order_body "OrderCreated" e w eq_refl)
    as (Hret & Hitems & d & Htrace & Hdup & Hrec).
  assert (Hplain : ~ ((exists pre post, exn_str e = pre +:+ "Conflict" +:+ post) /\
                      (exists pre post, exn_str e = pre +:+ "409" +:+ post))).
  { intros [_ H409]. apply str_in_spec in H409. discriminate H409. }
  split; [reflexivity|]. split; [exact Hret|]. split; [exact Hitems|].
  exists d. split; [exact Htrace|]. split; [apply Hrec, Hplain|].
  intros Hin. apply Hplain, Hdup, Hin.
Defined.

(** ** Batches and the receive loop *)

#[export] Instance checkpoint_untouched_preorder : PreOrder checkpoint_untouched.
Proof.
  split; [intros w; reflexivity|].
  intros w1 w2 w3 H H'. unfold checkpoint_untouched in *. congruence.
Qed.

Lemma checkpoint_untouched_emit e : stable checkpoint_untouched (emit e).
Proof. intros []. reflexivity. Qed.

Lemma checkpoint_untouched_tick : stable checkpoint_untouched tick.
Proof. intros []. reflexivity. Qed.

#[export] Hint Resolve checkpoint_untouched_emit checkpoint_untouched_tick : stable.

Section Checkpoint.

Variable env : Env.

Lemma checkpoint_untouched_ltrim key start stop :
  stable checkpoint_untouched (ltrim env key start stop).
Proof.
  unfold ltrim, net_call. apply stable_bind; try typeclasses eauto; [stable|].
  intros ? w. unfold modify, checkpoint_untouched. cbn [snd].
  destruct (redis_lists w !! key) as [l|]; [|reflexivity].
  destruct (take (S stop - start) (drop start l)); destruct w; reflexivity.
Qed.

Lemma checkpoint_untouched_expire key seconds :
  stable checkpoint_untouched (expire env key seconds).
Proof.
  unfold expire, net_call. apply stable_bind; try typeclasses eauto; [stable|].
  intros ? w. unfold modify, checkpoint_untouched. cbn [snd].
  destruct (redis_lists w !! key); destruct w; reflexivity.
Qed.

#[local] Hint Resolve checkpoint_untouched_ltrim checkpoint_untouched_expire : stable.



End Checkpoint.



(** X10: a batch fails only on its checkpoint.  [on_event_batch] returns
    normally unless the checkpoint call fails, and then it raises exactly
    that error after recording it on the batch span; no failure of an event
    escapes the batch.  The checkpoint call is the last consultation of the
    surroundings in the batch, hence the step just before the final one. *)
Theorem on_event_batch_fails_only_on_checkpoint
    (env : Env) (partition_context : PartitionContext)
    (event_batch : list EventData) (w : World) :
  let r := on_event_batch env partition_context event_batch w in
  match net_fault env (pred (steps (snd r))) with
  | None => fst r = Ret tt
  | Some e =>
      fst r = Raise e /\
      exists d, trace (snd r) =
        trace w ++ d ++
          [RecordException "process_event_batch" e;
           SetStatus "process_event_batch" StERROR
             (Some (exn_class e +:+ ": " +:+ exn_str e));
           SpanEnd "process_event_batch"]
  end.
Proof.
  intros r. remember r as r0 eqn:Hr. subst r.
  unfold on_event_batch, with_span in Hr. cbv zeta in Hr.
  unfold bind at 1, emit at 1, modify at 1 in Hr. cbn [fst snd] in Hr.
  unfold try_except, bind at 1 2 3 4 in Hr.
  unfold emit at 1, modify at 1 in Hr. cbn [fst snd] in Hr.
  unfold emit at 1, modify at 1 in Hr. cbn [fst snd] in Hr.
  match type of Hr with
  | context [for_each event_batch ?body ?w1] =>
      destruct (for_each_settled event_batch body
                  (fun event => settled_process_single_event env event partition_context) w1)
        as (Hret & p & f & _ & [_ _ _ (d & Hd & _)]);
      destruct (for_each event_batch body w1) as [r w2]
  end.
  cbn [fst snd] in *. subst r.
  destruct w2 as [p2 c2 items2 lists2 ttl2 ts2 tr2 n2].
  destruct w as [p0 c0 items0 lists0 ttl0 ts0 tr0 n0].
  cbn [trace set_trace] in Hd. subst tr2.
  revert Hr. exec.
  destruct (net_fault env n2) as [e|] eqn:Hfault; intros ->;
    cbn [Nat.pred]; rewrite Hfault; [|reflexivity].
  split; [reflexivity|].
  exists ([SpanStart "process_event_batch";
           SetAttribute "process_event_batch" "partition.id"
             (VStr (partition_id partition_context));
           SetAttribute "process_event_batch" "batch.size"
             (VInt (Z.of_nat (length event_batch)))] ++ d ++
          [UpdateCheckpoint (partition_id partition_context)]).
  rewrite <- !app_assoc. reflexivity.
Qed.

Section LoopExit.

Variable env : Env.

(** Handling events and partition errors neither closes a client nor counts
    a consumer error. *)
Lemma deliveries_handled (ds : list Delivery) :
  let handle d :=
    match d with
    | Batch pc event_batch =>
        try_except (on_event_batch env pc event_batch) (on_error pc)
    | PartitionError pc error => on_error pc error
    end in
  returns (for_each ds handle) /\
  stable (emits_no is_client_closed) (for_each ds handle) /\
  stable (emits_no is_consumer_error) (for_each ds handle).
Proof.
  intros handle. split; [apply (checkpoints_deliveries env ds)|].
  subst handle.
  split;
    unfold on_event_batch, on_error, update_checkpoint, process_single_event,
      maybe_inject_failure, handle_order_created, handle_order_status_updated,
      handle_generic_event, send_notification,
      store_processed_event, store_processed_event_except, cache_event_summary,
      with_span, now, utcnow, uniform, random, choice, asyncio_sleep, logger,
      py_get, py_keys;
    cbv zeta; stable.
Qed.

End LoopExit.

(** X11: the receive loop closes its client.  Once past the guard,
    [process_events] logs its start, handles the deliveries, then closes the
    consumer client exactly once, on a normal end and on a fatal error of the
    receive call alike; a fatal error is logged and counted as
    [consumer_error] after the client is closed, and only then. *)
Theorem process_events_closes_the_client (env : Env) (w : World) :
  is_some (consumer_client (processor w)) = true ->
  exists d,
    trace (snd (process_events env w)) =
      trace w ++ Log LInfo "Starting event processing" [] :: d
        ++ ClientClosed "consumer_client"
        :: match receive_end env with
           | None => []
           | Some e =>
               [Log LError "Event processing loop failed" [("error", VStr (exn_str e))];
                CounterAdd "event_processing_errors_total" 1
                  [("error_type", "consumer_error")]]
           end /\
    count is_client_closed d = 0 /\
    count is_consumer_error d = 0.
Proof.
  intros Hclient. rewrite process_events_unfold, Hclient.
  unfold async_with, receive_batch.
  match goal with
  | |- context [try_except _ _ ?w0] => remember w0 as w1 eqn:Hw1
  end.
  assert (Htr : trace w1 = trace w ++ [Log LInfo "Starting event processing" []])
    by (subst w1; destruct w; reflexivity).
  clear Hw1.
  destruct (deliveries_handled env (deliveries env)) as (Hret & Hclosed & Hfatal).
  specialize (Hret w1). specialize (Hclosed w1). specialize (Hfatal w1).
  unfold try_except at 1 2, bind at 1 2 3 4 5.
  destruct (for_each (deliveries env) _ w1) as [r w2].
  destruct Hret as [[] Hret]. cbn [fst snd] in *. subst r.
  destruct Hclosed as (d & Hd & Hclosed). destruct Hfatal as (d' & Hd' & Hfatal).
  assert (d' = d) by (rewrite Hd in Hd'; apply app_inv_head in Hd'; congruence).
  subst d'.
  exists d. split; [|split; assumption].
  destruct w2 as [p2 c2 items2 lists2 ttl2 ts2 tr2 n2].
  cbn [trace] in Hd. subst tr2. rewrite Htr.
  destruct (receive_end env) as [e|]; exec; rewrite <- !app_assoc; reflexivity.
Qed.

(** X11 at work: one batch is delivered, then the connection is lost. *)
Lemma process_events_closes_the_client_witness :
  let e := PyExc "ConnectionLostError" "link detached" in
  let env := calm_env [Batch (mkPartitionContext "0") [order_event]] (Some e) in
  let w := sample_world ready_processor uninjected_config in
  is_some (consumer_client (processor w)) = true /\
  exists d,
    trace (snd (process_events env w)) =
      trace w ++ Log LInfo "Starting event processing" [] :: d
        ++ [ClientClosed "consumer_client";
            Log LError "Event processing loop failed" [("error", VStr "link detached")];
            CounterAdd "event_processing_errors_total" 1
              [("error_type", "consumer_error")]] /\
    count is_client_closed d = 0 /\
    count is_consumer_error d = 0.
Proof.
  intros e env w. split; [reflexivity|].
  exact (process_events_closes_the_client env w eq_refl).
Defined.

Section DocsKept.

Variable env : Env.

Lemma docs_kept_upsert_item document : stable docs_kept (upsert_item env document).
Proof.
  unfold upsert_item, net_call.
  apply stable_bind; try typeclasses eauto; [stable|].
  intros ? w. unfold modify, docs_kept. destruct w; cbn.
  rewrite dom_insert_L. set_solver.
Qed.

Lemma docs_kept_cache event_data event_type :
  stable docs_kept (cache_event_summary env event_data event_type).
Proof. apply docs_kept_of_cosmos_untouched, cosmos_untouched_cache. Qed.

#[local] Hint Resolve docs_kept_upsert_item docs_kept_cache : stable.

Lemma docs_kept_store event_data event_type :
  stable docs_kept (store_processed_event env event_data event_type).
Proof.
  unfold store_processed_event, store_processed_event_except, with_span, now, utcnow,
    py_get, logger.
  cbv zeta. stable.
Qed.

#[local] Hint Resolve docs_kept_store : stable.

Lemma docs_kept_process_single_event event partition_context :
  stable docs_kept (process_single_event env event partition_context).
Proof.
  unfold process_single_event.
  pose proof (stable_maybe_inject_failure env docs_kept docs_kept_emit docs_kept_tick).
  pose proof (stable_handle_order_created env docs_kept docs_kept_emit docs_kept_tick).
  pose proof (stable_handle_order_status_updated env docs_kept docs_kept_emit
                docs_kept_tick).
  pose proof (stable_handle_generic_event env docs_kept docs_kept_emit docs_kept_tick).
  unfold with_span, now, logger. cbv zeta. stable.
Qed.

Lemma docs_kept_process_events : stable docs_kept (process_events env).
Proof.
  pose proof docs_kept_process_single_event.
  unfold process_events, async_with, receive_batch, on_event_batch, on_error,
    update_checkpoint, net_call, with_span, logger. cbv zeta. stable.
Qed.

End DocsKept.

(** X12: what the receive loop leaves alone.  Whatever is delivered and
    whatever fails, [process_events] does not change the configuration,
    creates no task, never removes a document from the store (ids are only
    added or overwritten) and only appends to the trace. *)
Theorem process_events_frame (env : Env) (w : World) :
  let w' := snd (process_events env w) in
  config w' = config w /\
  tasks w' = tasks w /\
  dom (cosmos_items w) ⊆ dom (cosmos_items w') /\
  exists d, trace w' = trace w ++ d.
Proof.
  intros w'. subst w'.
  split; [|split; [|split; [apply (docs_kept_process_events env w)|]]].
  all: rewrite process_events_unfold;
    destruct (is_some (consumer_client (processor w)));
    [|destruct w; cbn; eauto].
  all: match goal with
       | |- context [try_except ?c ?h ?w1] =>
           assert (Hk : keeps (try_except c h))
       end.
  all: try (apply keeps_try_except;
      [unfold async_with; apply keeps_try_except;
       [apply keeps_bind; [apply keeps_receive_batch | intros a];
        apply keeps_bind; [apply keeps_emit | intros _; apply keeps_of_quiet, quiet_ret]
       |intros e; apply keeps_bind; [apply keeps_emit | intros _];
        apply keeps_of_quiet, quiet_raise]
      |intros e; apply keeps_bind; [apply keeps_emit | intros _; apply keeps_emit]]).
  all: match goal with
       | |- context [try_except ?c ?h ?w1] =>
           destruct (Hk w1) as (p & f & k & [Hp Hc Ht (d & Hd & _)])
       end.
  - rewrite Hc. destruct w; reflexivity.
  - rewrite Ht. destruct w; reflexivity.
  - rewrite Hd. destruct w; cbn. rewrite <- app_assoc. eauto.
Qed.

(** ** Endpoints *)

(** X13: start-up launches the loop at most once.  [startup_event] fails
    exactly when [initialize] fails, with the same exception, and then
    creates no task; when [initialize] succeeds it creates one
    [process_events] task if [running] is false and none if it is true.  It
    never changes [running] itself. *)
Theorem startup_event_launches_once (env : Env) (w : World) :
  fst (startup_event env w) = fst (initialize env w) /\
  tasks (snd (startup_event env w)) =
    tasks w ++
    match fst (initialize env w) with
    | Ret _ => if running (processor w) then [] else [ProcessEvents]
    | Raise _ => []
    end /\
  running (processor (snd (startup_event env w))) = running (processor w).
Proof.
  destruct w as [p c items lists ttl ts tr n].
  destruct c as [eh_conn eh_name group endpoint ckey database container url fi lp ep].
  destruct p as [rc cc ccont cons prod rn].
  exec.
  destruct (Redis_from_url_fault env url); exec;
    [rewrite app_nil_r; repeat split|].
  destruct (net_fault env n); exec; [rewrite app_nil_r; repeat split|].
  destruct (truthy endpoint); [destruct (truthy ckey)|]; exec;
    try (destruct (CosmosClient_fault env endpoint ckey); exec;
         [rewrite app_nil_r; repeat split|]);
    (destruct (truthy eh_conn); exec;
     [destruct (EventHub_from_connection_string_fault env eh_conn); exec;
      [rewrite app_nil_r; repeat split|]|]);
    destruct rn; exec; rewrite ?app_nil_r; repeat split.
Qed.

(** X14: [/health] reports the flag and nothing else.  The answer is always
    "healthy", whatever the state of the clients; its [running] field is the
    processor's flag; the call changes nothing but the clock reading.  After
    [process_events] has run, the field is true as soon as the consumer
    client was initialised, and otherwise what it was before. *)
Theorem health_check_reports_flag (env : Env) (w : World) :
  let r := health_check env w in
  (exists response,
     fst r = Ret response /\
     health_running response = running (processor w) /\
     health_status response = "healthy" /\
     health_service response = "event-processor" /\
     health_timestamp response = utcnow_isoformat env (steps w)) /\
  snd r = set_steps (S (steps w)) w /\
  exists response,
    fst (health_check env (snd (process_events env w))) = Ret response /\
    health_running response =
      is_some (consumer_client (processor w)) || running (processor w).
Proof.
  split; [|split].
  - destruct w as [p c items lists ttl ts tr n]. eexists. repeat split.
  - destruct w as [p c items lists ttl ts tr n]. reflexivity.
  - destruct (process_events_processor env w) as [_ Hproc].
    eexists. split; [reflexivity|]. cbn [health_running].
    etransitivity; [exact (f_equal running Hproc)|].
    destruct (is_some (consumer_client (processor w))); [|reflexivity].
    destruct (processor w); reflexivity.
Qed.

(** X15: the failure-injection endpoints round-trip.  After a POST with
    [u], a GET answers [u]; the POST changes the three injection settings and
    nothing else: the connection settings, the processor, the tasks, the
    stores, the checkpoints and the trace are as before.  The GET changes nothing but the
    clock reading. *)
Theorem configure_then_get (env : Env) (u : FailureInjectionConfig) (w : World) :
  let w1 := snd (configure_failure_injection env u w) in
  fst (configure_failure_injection env u w) = Ret u /\
  fst (get_failure_injection_config env w1) = Ret u /\
  connection_settings (config w1) = connection_settings (config w) /\
  processor w1 = processor w /\ tasks w1 = tasks w /\ trace w1 = trace w /\
  stores_untouched w w1 /\
  checkpoint_store w1 = checkpoint_store w /\
  snd (get_failure_injection_config env w1) = set_steps (S (steps w1)) w1.
Proof.
  destruct w as [p c items lists ttl ts tr n]. destruct u as [en lp ep].
  destruct c. cbv zeta. exec. repeat split.
Qed.
